(** * generate_ir.py: synthesis of a 4-channel spatial impulse response

    A shallow embedding of [handheld-audio-enhance/generate_ir.py] and the
    properties of its impulse synthesizer and of its WAV encoder.

    Python's [float] is IEEE-754 binary64; it is embedded as Rocq's
    primitive [float], whose operations are the same round-to-nearest-even
    binary64 operations.  The synthesizer is written once over an
    arithmetic interface ([PyArith]) and instantiated twice: with binary64
    (what CPython executes) and with exact rationals (the same program
    without rounding).  Python exceptions are values of [exn], and a
    computation that may raise returns a [result]. *)

From Stdlib Require Import ZArith QArith Qcanon Lia Bool.
From Stdlib Require Import PrimFloat SpecFloat FloatOps FloatAxioms.
From Stdlib.Strings Require Byte.
From stdpp Require Import base list strings gmap pretty.

Local Open Scope Z_scope.
Set Warnings "-inexact-float".

(** ** Exceptions and results *)

(** The exceptions the modelled code can raise. *)
Inductive exn : Type :=
  | IndexError          (* list index / assignment index out of range *)
  | ZeroDivisionError   (* float division by zero *)
  | OverflowError       (* int(inf), int too large for float, float too large to pack *)
  | ValueError (msg : string)  (* int(nan), unknown preset *)
  | StructError         (* struct.error: integer out of range for the format *)
  | FileNotFoundError.

Inductive result (A : Type) : Type :=
  | Ok (a : A)
  | Raise (e : exn).
Arguments Ok {A} a.
Arguments Raise {A} e.

Definition rbind {A B} (r : result A) (k : A -> result B) : result B :=
  match r with
  | Ok a => k a
  | Raise e => Raise e
  end.

#[global] Instance result_bind : MBind result := fun A B k r => rbind r k.
#[global] Instance result_ret : MRet result := fun A a => Ok a.

(** ** The arithmetic interface *)

(** What the program asks of its numbers.  [div] is Python's [/], which
    raises [ZeroDivisionError] on a zero divisor; [to_int] is [int(x)],
    which truncates toward zero and raises on an infinity or a NaN;
    [of_int] is the conversion of an [int] operand in mixed arithmetic;
    [truthy] is the truth value [bool(x)]; [math_pi] is [math.pi]. *)
Class PyArith (F : Type) : Type := {
  zero : F;
  one : F;
  two : F;
  add : F -> F -> F;
  sub : F -> F -> F;
  mul : F -> F -> F;
  opp : F -> F;
  div : F -> F -> result F;
  of_int : Z -> result F;
  to_int : F -> result Z;
  truthy : F -> bool;
  ltb : F -> F -> bool;
  math_pi : F
}.

(** ** Instance: IEEE-754 binary64, as CPython computes *)

Module Binary64.

(** [int(x)]: truncation toward zero of a finite float. *)
Definition SFtrunc (x : spec_float) : result Z :=
  match x with
  | S754_nan => Raise (ValueError "cannot convert float NaN to integer")
  | S754_infinity _ => Raise OverflowError
  | S754_zero _ => Ok 0
  | S754_finite s m e =>
      let a := match e with
               | Zneg k => Z.shiftr (Zpos m) (Zpos k)
               | _ => Z.shiftl (Zpos m) e
               end in
      Ok (if s then - a else a)
  end.

Definition float_to_int (x : float) : result Z := SFtrunc (Prim2SF x).

(** [float(n)] for an [int] [n]: the nearest binary64 (ties to even),
    [OverflowError] when [n] is too large. *)
Definition float_of_int (n : Z) : result float :=
  match binary_normalize prec emax n 0 false with
  | S754_infinity _ => Raise OverflowError
  | s => Ok (SF2Prim s)
  end.

Definition float_div (x y : float) : result float :=
  if PrimFloat.eqb y 0%float then Raise ZeroDivisionError
  else Ok (PrimFloat.div x y).

Definition float_truthy (x : float) : bool := negb (PrimFloat.eqb x 0%float).

#[global] Instance arith : PyArith float := {|
  zero := 0%float;
  one := 1%float;
  two := 2%float;
  add := PrimFloat.add;
  sub := PrimFloat.sub;
  mul := PrimFloat.mul;
  opp := PrimFloat.opp;
  div := float_div;
  of_int := float_of_int;
  to_int := float_to_int;
  truthy := float_truthy;
  ltb := PrimFloat.ltb;
  math_pi := 3.141592653589793%float
|}.

End Binary64.

(** ** Instance: exact rational arithmetic *)

Module Exact.

Definition Qc_div (x y : Qc) : result Qc :=
  if Qc_eq_dec y 0%Qc then Raise ZeroDivisionError else Ok (x / y)%Qc.

Definition Qc_to_int (x : Qc) : result Z :=
  Ok (Z.quot (Qnum x) (Zpos (Qden x))).

Definition Qc_ltb (x y : Qc) : bool :=
  match (x ?= y)%Qc with Lt => true | _ => false end.

(** [math.pi] is the binary64 number [884279719003555 / 2^48]. *)
Definition Qc_pi : Qc := Q2Qc (884279719003555 # 281474976710656).

#[global] Instance arith : PyArith Qc := {|
  zero := 0%Qc;
  one := 1%Qc;
  two := Q2Qc 2;
  add := Qcplus;
  sub := Qcminus;
  mul := Qcmult;
  opp := Qcopp;
  div := Qc_div;
  of_int := fun n => Ok (Q2Qc (inject_Z n));
  to_int := Qc_to_int;
  truthy := fun x => if Qc_eq_dec x 0%Qc then false else true;
  ltb := Qc_ltb;
  math_pi := Qc_pi
|}.

End Exact.

(** ** Module constants *)

Definition SAMPLE_RATE : Z := 48000.
Definition IR_DURATION_MS : Z := 80.
Definition NUM_CHANNELS : Z := 4.

(** [IR_SAMPLES = int(SAMPLE_RATE * IR_DURATION_MS / 1000)]: the product
    of the two [int]s is divided by true division (a float) and truncated.
    The constant is evaluated once, when the module is loaded. *)
Definition IR_SAMPLES_expr {F : Type} `{PyArith F} : result Z :=
  n ← of_int (SAMPLE_RATE * IR_DURATION_MS);
  k ← of_int 1000;
  q ← div n k;
  to_int q.

Definition IR_SAMPLES : Z := 3840.

(** ** Python lists indexed by an [int] *)

Section PyList.
Context {A : Type}.

(** The position an index denotes: [0 <= i < len] is itself, a negative
    [i >= -len] counts from the end, anything else is an [IndexError]. *)
Definition py_index (l : list A) (i : Z) : result nat :=
  let n := Z.of_nat (length l) in
  if (0 <=? i) && (i <? n) then Ok (Z.to_nat i)
  else if (- n <=? i) && (i <? 0) then Ok (Z.to_nat (n + i))
  else Raise IndexError.

(** [l[i]] *)
Definition py_getitem (l : list A) (i : Z) : result A :=
  k ← py_index l i;
  match l !! k with
  | Some x => Ok x
  | None => Raise IndexError
  end.

(** [l[i] = v] *)
Definition py_setitem (l : list A) (i : Z) (v : A) : result (list A) :=
  k ← py_index l i;
  Ok (<[k:=v]> l).

End PyList.

(** ** The impulse synthesizer *)

Section Synth.
Context {F : Type} `{PyArith F}.

(** [ms_to_samples(ms)]: [int(ms * SAMPLE_RATE / 1000)]. *)
Definition ms_to_samples (ms : F) : result Z :=
  sr ← of_int SAMPLE_RATE;
  k ← of_int 1000;
  q ← div (mul ms sr) k;
  to_int q.

(** The body of [for i in range(len(samples))] in [apply_lpf_to_impulse],
    over the remaining indices: [prev] is the filter state, [samples] the
    list being overwritten in place. *)
Fixpoint lpf_loop (alpha : F) (range : list nat) (prev : F) (samples : list F)
  : result (list F) :=
  match range with
  | [] => Ok samples
  | i :: range' =>
      x ← py_getitem samples (Z.of_nat i);
      let prev' := add prev (mul alpha (sub x prev)) in
      samples' ← py_setitem samples (Z.of_nat i) prev';
      lpf_loop alpha range' prev' samples'
  end.

(** The three assignments before the loop: [rc], [dt], [alpha]. *)
Definition lpf_alpha (cutoff_hz : F) (sample_rate : Z) : result F :=
  rc ← div one (mul (mul two math_pi) cutoff_hz);
  sr ← of_int sample_rate;
  dt ← div one sr;
  div dt (add rc dt).

(** [apply_lpf_to_impulse(samples, cutoff_hz, sample_rate)] *)
Definition apply_lpf_to_impulse (samples : list F) (cutoff_hz : F) (sample_rate : Z)
  : result (list F) :=
  alpha ← lpf_alpha cutoff_hz sample_rate;
  lpf_loop alpha (seq 0 (length samples)) zero samples.

(** [polarity = 1.0 if i % 2 == 0 else -1.0] *)
Definition polarity (i : nat) : F := if Nat.even i then one else opp one.

(** One iteration of [for i, (delay_ms, ref_gain) in enumerate(reflections)]. *)
Definition reflection_step (is_cross : bool) (cross_delay_ms : F)
    (i : nat) (tap : F * F) (buf : list F) : result (list F) :=
  let '(delay_ms, ref_gain) := tap in
  total_delay ← ms_to_samples (add delay_ms (if is_cross then cross_delay_ms else zero));
  if total_delay <? IR_SAMPLES then
    old ← py_getitem buf total_delay;
    py_setitem buf total_delay (add old (mul ref_gain (polarity i)))
  else Ok buf.

Fixpoint reflections_loop (is_cross : bool) (cross_delay_ms : F)
    (i : nat) (reflections : list (F * F)) (buf : list F) : result (list F) :=
  match reflections with
  | [] => Ok buf
  | tap :: rest =>
      buf' ← reflection_step is_cross cross_delay_ms i tap buf;
      reflections_loop is_cross cross_delay_ms (S i) rest buf'
  end.

(** The main impulse: [buf[delay_samples] = gain] under the bounds test. *)
Definition main_impulse (gain : F) (is_cross : bool) (cross_delay_ms : F)
    (buf : list F) : result (list F) :=
  delay_samples ← (if is_cross then ms_to_samples cross_delay_ms else Ok 0);
  if delay_samples <? IR_SAMPLES then py_setitem buf delay_samples gain
  else Ok buf.

(** [generate_channel(gain, reflections, is_cross, cross_delay_ms, cross_lpf_freq)];
    [cross_lpf_freq = None] is Python's [None]. *)
Definition generate_channel (gain : F) (reflections : list (F * F))
    (is_cross : bool) (cross_delay_ms : F) (cross_lpf_freq : option F)
  : result (list F) :=
  let buf := replicate (Z.to_nat IR_SAMPLES) zero in
  buf ← main_impulse gain is_cross cross_delay_ms buf;
  buf ← reflections_loop is_cross cross_delay_ms 0 reflections buf;
  match cross_lpf_freq with
  | Some f =>
      if is_cross && truthy f then apply_lpf_to_impulse buf f SAMPLE_RATE
      else Ok buf
  | None => Ok buf
  end.

End Synth.

(** ** Bytes and [struct.pack] *)

Abbreviation byte := Byte.byte.

Definition byte_of_Z (n : Z) : byte :=
  default Byte.x00 (Byte.of_N (Z.to_N (Z.land n 255))).

(** The [k] low-order bytes of [n], least significant first. *)
Fixpoint le_bytes (k : nat) (n : Z) : list byte :=
  match k with
  | O => []
  | S k' => byte_of_Z n :: le_bytes k' (Z.shiftr n 8)
  end.

(** A bytes literal such as [b"RIFF"]. *)
Definition bytes_lit (s : string) : list byte := String.list_byte_of_string s.

(** [struct.pack("<I", n)]: unsigned 32-bit, little-endian; [struct.error]
    outside [0 .. 2^32-1]. *)
Definition pack_I (n : Z) : result (list byte) :=
  if (0 <=? n) && (n <? 2 ^ 32) then Ok (le_bytes 4 n) else Raise StructError.

(** [struct.pack("<H", n)]: unsigned 16-bit, little-endian. *)
Definition pack_H (n : Z) : result (list byte) :=
  if (0 <=? n) && (n <? 2 ^ 16) then Ok (le_bytes 2 n) else Raise StructError.

(** Rounding of a binary64 to binary32 (the C cast [(float)x]),
    to nearest with ties to even. *)
Definition SF_to_binary32 (x : spec_float) : spec_float :=
  match x with
  | S754_finite s m e => binary_normalize 24 128 (cond_Zopp s (Zpos m)) e s
  | _ => x
  end.

(** The 32 bits of a binary32: sign, 8-bit biased exponent, 23-bit fraction.
    The NaN of [spec_float] carries no sign or payload; it is given the
    quiet NaN pattern [0x7FC00000]. *)
Definition bits_of_binary32 (x : spec_float) : Z :=
  let sign (s : bool) := if s then Z.shiftl 1 31 else 0 in
  match x with
  | S754_zero s => sign s
  | S754_infinity s => Z.lor (sign s) 0x7F800000
  | S754_nan => 0x7FC00000
  | S754_finite s m e =>
      if Zpos m <? 2 ^ 23 then Z.lor (sign s) (Zpos m)
      else Z.lor (sign s) (Z.lor (Z.shiftl (e + 150) 23) (Zpos m - 2 ^ 23))
  end.

(** [struct.pack("<f", x)]: [x] rounded to binary32, little-endian;
    [OverflowError] when a finite [x] rounds to an infinity. *)
Definition pack_f (x : float) : result (list byte) :=
  let d := Prim2SF x in
  let y := SF_to_binary32 d in
  match d, y with
  | S754_finite _ _ _, S754_infinity _ => Raise OverflowError
  | _, _ => Ok (le_bytes 4 (bits_of_binary32 y))
  end.

(** ** The world: files, standard output, and the record of synthesizer calls *)

(** One call of [generate_channel], with its arguments. *)
Record synth_call : Type := SynthCall {
  call_gain : float;
  call_reflections : list (float * float);
  call_is_cross : bool;
  call_cross_delay_ms : float;
  call_cross_lpf_freq : option float
}.

Record World : Type := mkWorld {
  files : gmap string (list byte);   (* path -> content *)
  stdout : list string;              (* lines printed so far *)
  calls : list synth_call            (* calls of generate_channel so far *)
}.

(** A command: it changes the world and returns or raises. *)
Definition IO (A : Type) : Type := World -> World * result A.

Definition io_ret {A} (a : A) : IO A := fun w => (w, Ok a).
Definition io_bind {A B} (m : IO A) (k : A -> IO B) : IO B :=
  fun w => match m w with
           | (w', Ok a) => k a w'
           | (w', Raise e) => (w', Raise e)
           end.
#[global] Instance IO_ret : MRet IO := @io_ret.
#[global] Instance IO_bind : MBind IO := fun A B k m => io_bind m k.

(** A pure computation that may raise. *)
Definition lift {A} (r : result A) : IO A := fun w => (w, r).

(** [open(path, "wb")]: the file is created or truncated.  Opening and
    writing always succeed here: I/O failures are not modelled. *)
Definition open_wb (path : string) : IO unit :=
  fun w => (mkWorld (<[path := []]> (files w)) (stdout w) (calls w), Ok ()).

(** [f.write(data)] on the file opened at [path]. *)
Definition f_write (path : string) (data : list byte) : IO unit :=
  fun w => (mkWorld (<[path := default [] (files w !! path) ++ data]> (files w))
                    (stdout w) (calls w), Ok ()).

(** [os.path.getsize(path)] *)
Definition getsize (path : string) : IO Z :=
  fun w => (w, match files w !! path with
               | Some c => Ok (Z.of_nat (length c))
               | None => Raise FileNotFoundError
               end).

(** [print(line)] *)
Definition print (line : string) : IO unit :=
  fun w => (mkWorld (files w) (stdout w ++ [line]) (calls w), Ok ()).

(** ** The container encoder *)

(** [for ch in range(num_channels): f.write(struct.pack("<f", channels[ch][i]))] *)
Fixpoint write_frame (f : string) (channels : list (list float)) (i : Z)
    (range : list nat) : IO unit :=
  match range with
  | [] => mret ()
  | ch :: range' =>
      c ← lift (py_getitem channels (Z.of_nat ch));
      x ← lift (py_getitem c i);
      b ← lift (pack_f x);
      f_write f b;;
      write_frame f channels i range'
  end.

(** [for i in range(num_samples): ...] *)
Fixpoint write_frames (f : string) (channels : list (list float))
    (num_channels : nat) (range : list nat) : IO unit :=
  match range with
  | [] => mret ()
  | i :: range' =>
      write_frame f channels (Z.of_nat i) (seq 0 num_channels);;
      write_frames f channels num_channels range'
  end.

(** [write_wav(filepath, channels, sample_rate)] *)
Definition write_wav (filepath : string) (channels : list (list float))
    (sample_rate : Z) : IO unit :=
  let num_channels := Z.of_nat (length channels) in
  c0 ← lift (py_getitem channels 0);
  let num_samples := Z.of_nat (length c0) in
  let bits_per_sample := 32 in
  let byte_rate := sample_rate * num_channels * (bits_per_sample `div` 8) in
  let block_align := num_channels * (bits_per_sample `div` 8) in
  let data_size := num_samples * block_align in
  let f := filepath in
  open_wb filepath;;
  (* RIFF header *)
  f_write f (bytes_lit "RIFF");;
  b ← lift (pack_I (36 + data_size)); f_write f b;;
  f_write f (bytes_lit "WAVE");;
  (* fmt chunk *)
  f_write f (bytes_lit "fmt ");;
  b ← lift (pack_I 16); f_write f b;;
  b ← lift (pack_H 3); f_write f b;;
  b ← lift (pack_H num_channels); f_write f b;;
  b ← lift (pack_I sample_rate); f_write f b;;
  b ← lift (pack_I byte_rate); f_write f b;;
  b ← lift (pack_H block_align); f_write f b;;
  b ← lift (pack_H bits_per_sample); f_write f b;;
  (* data chunk *)
  f_write f (bytes_lit "data");;
  b ← lift (pack_I data_size); f_write f b;;
  write_frames f channels (length channels) (seq 0 (length c0)).

(** ** Presets *)

Record Preset : Type := mkPreset {
  direct_gain : float;
  reflections : list (float * float);
  cross_gain : float;
  cross_delay_ms : float;
  cross_lpf_freq : float;
  cross_reflections : list (float * float)
}.

(** The [PRESETS] dict, in insertion order.  The cutoffs are written as
    [int]s in the source; they only occur in float arithmetic, where each
    is converted to the float of the same value. *)
Definition PRESETS : list (string * Preset) :=
  [ ("light",
     mkPreset 1.0
       [(1.8, 0.08); (5.2, 0.05); (11.0, 0.03)]
       0.15 0.25 3000
       [(3.5, 0.04); (8.0, 0.02)]);
    ("medium",
     mkPreset 1.0
       [(1.5, 0.12); (3.8, 0.09); (6.5, 0.06); (10.2, 0.04); (15.0, 0.025)]
       0.25 0.30 2500
       [(2.8, 0.06); (6.0, 0.04); (12.0, 0.02)]);
    ("heavy",
     mkPreset 1.0
       [(1.2, 0.18); (3.0, 0.14); (5.5, 0.10); (8.0, 0.07); (12.0, 0.05);
        (18.0, 0.035); (25.0, 0.02)]
       0.35 0.35 2000
       [(2.2, 0.10); (5.0, 0.06); (9.0, 0.04); (15.0, 0.02)])
  ]%float.

(** [PRESETS[name]], [None] when [name not in PRESETS]. *)
Fixpoint dict_get {V : Type} (d : list (string * V)) (name : string) : option V :=
  match d with
  | [] => None
  | (k, v) :: d' => if String.eqb k name then Some v else dict_get d' name
  end.

(** [', '.join(names)] *)
Fixpoint join (sep : string) (names : list string) : string :=
  match names with
  | [] => ""
  | [x] => x
  | x :: rest => x +:+ sep +:+ join sep rest
  end.

(** ** The generator *)

(** A call of [generate_channel] from [generate_ir]: the call is recorded,
    then the synthesizer runs. *)
Definition call_generate_channel (gain : float) (refl : list (float * float))
    (is_cross : bool) (delay : float) (lpf : option float) : IO (list float) :=
  fun w =>
    (mkWorld (files w) (stdout w)
             (calls w ++ [SynthCall gain refl is_cross delay lpf]),
     generate_channel gain refl is_cross delay lpf).

(** [f"{file_size / 1024:.1f}"]: one decimal, the exact quotient rounded
    to nearest with ties to even (the quotient of an [int] below [2^53] by
    [1024] is an exact binary64). *)
Definition format_kb (file_size : Z) : string :=
  let q := (file_size * 10) `div` 1024 in
  let r := (file_size * 10) `mod` 1024 in
  let t := if (512 <? r) || ((r =? 512) && Z.odd q) then q + 1 else q in
  pretty (t `div` 10) +:+ "." +:+ pretty (t `mod` 10).

(** [generate_ir(preset_name, output_path)] *)
Definition generate_ir (preset_name : string) (output_path : string) : IO unit :=
  match dict_get PRESETS preset_name with
  | None =>
      lift (Raise (ValueError ("Unknown preset: " +:+ preset_name +:+ ". " +:+
                               "Choose from: " +:+ join ", " (PRESETS.*1))))
  | Some p =>
      (* Channel 0: Direct L->L *)
      ch_ll ← call_generate_channel (direct_gain p) (reflections p) false 0%float None;
      (* Channel 1: Direct R->R, [list(ch_ll)] *)
      let ch_rr := ch_ll in
      (* Channel 2: Cross L->R *)
      ch_lr ← call_generate_channel (cross_gain p) (cross_reflections p) true
                (cross_delay_ms p) (Some (cross_lpf_freq p));
      (* Channel 3: Cross R->L, [list(ch_lr)] *)
      let ch_rl := ch_lr in
      write_wav output_path [ch_ll; ch_rr; ch_lr; ch_rl] SAMPLE_RATE;;
      file_size ← getsize output_path;
      print ("Generated: " +:+ output_path);;
      print ("  Preset:     " +:+ preset_name);;
      print ("  Channels:   " +:+ pretty NUM_CHANNELS +:+ " (LL, RR, LR, RL)");;
      print ("  Sample rate: " +:+ pretty SAMPLE_RATE +:+ " Hz");;
      print ("  Duration:   " +:+ pretty IR_DURATION_MS +:+ " ms (" +:+
             pretty IR_SAMPLES +:+ " samples)");;
      print ("  Size:       " +:+ format_kb file_size +:+ " KB")
  end.


(** ** The command line *)


(** * The vocabulary of the properties *)

(** The definitions below are not part of the program: they name what the
    properties talk about. *)

Section Vocabulary.
Context {F : Type} `{PyArith F}.
Implicit Types (d : Z) (k i : nat) (gain g cdm dm : F).

(** The recurrence of the specification: from the state [state], each
    sample [x] is replaced by [state + alpha * (x - state)], which is the
    state for the next sample. *)
Fixpoint lpf_recurrence (alpha : F) (state : F) (xs : list F) : list F :=
  match xs with
  | [] => []
  | x :: xs' =>
      let state' := add state (mul alpha (sub x state)) in
      state' :: lpf_recurrence alpha state' xs'
  end.

(** The filter state after the first [n] samples. *)
Fixpoint lpf_state (alpha : F) (xs : list F) (n : nat) : F :=
  match n with
  | O => zero
  | S n' =>
      let state := lpf_state alpha xs n' in
      match xs !! n' with
      | Some x => add state (mul alpha (sub x state))
      | None => state
      end
  end.

(** The freshly allocated buffer [[0.0] * IR_SAMPLES]. *)
Definition zeros : list F := replicate (Z.to_nat IR_SAMPLES) zero.

(** The buffer position a converted sample index [d] writes to: none when
    the bounds test [d < IR_SAMPLES] fails; [d] itself when it is not
    negative; [IR_SAMPLES + d], counted from the end, when it is negative
    and not below [-IR_SAMPLES] (below that the subscript raises). *)
Definition position (d : Z) : option nat :=
  if IR_SAMPLES <=? d then None
  else if 0 <=? d then Some (Z.to_nat d)
  else if - IR_SAMPLES <=? d then Some (Z.to_nat (IR_SAMPLES + d))
  else None.

(** The sample index of the main impulse. *)
Definition main_index (is_cross : bool) cdm : result Z :=
  if is_cross then ms_to_samples cdm else Ok 0.

(** The sample index of a reflection tap with delay [dm]. *)
Definition tap_index (is_cross : bool) cdm dm : result Z :=
  ms_to_samples (add dm (if is_cross then cdm else zero)).

(** The signed gains that the taps of [refl], numbered from [i], add to
    position [k], in input order. *)
Fixpoint contributions (is_cross : bool) cdm (k i : nat) (refl : list (F * F))
  : list F :=
  match refl with
  | [] => []
  | (dm, g) :: rest =>
      match tap_index is_cross cdm dm with
      | Ok d => if decide (position d = Some k) then [mul g (polarity i)] else []
      | Raise _ => []
      end ++ contributions is_cross cdm k (S i) rest
  end.

(** A delay whose conversion succeeds with an index the buffer can
    resolve or the bounds test drops. *)
Definition placeable (r : result Z) : Prop :=
  exists d, r = Ok d /\ - IR_SAMPLES <= d.

(** Whether [generate_channel] runs the filter. *)
Definition filter_runs (is_cross : bool) (cross_lpf_freq : option F) : bool :=
  match cross_lpf_freq with
  | Some f => is_cross && truthy f
  | None => false
  end.

End Vocabulary.

(** A binary64 that is a number: a zero or a finite non-zero value. *)
Definition finite64 (x : float) : bool :=
  match Prim2SF x with
  | S754_zero _ | S754_finite _ _ _ => true
  | _ => false
  end.

(** Strictly positive: a positive finite number or the positive infinity. *)
Definition SFpositive (x : spec_float) : bool :=
  match x with
  | S754_finite false _ _ | S754_infinity false => true
  | _ => false
  end.

(** Not negative and not a NaN: the zero [+0], a positive finite number or
    the positive infinity. *)
Definition SFnonneg (x : spec_float) : bool :=
  match x with
  | S754_zero false | S754_finite false _ _ | S754_infinity false => true
  | _ => false
  end.

(** The world with the file at [path] holding [content]. *)
Definition set_file (path : string) (content : list byte) (w : World) : World :=
  mkWorld (<[path := content]> (files w)) (stdout w) (calls w).

(** The four bytes of a sample: its binary32 rounding, little-endian. *)
Definition f32_le (x : float) : list byte :=
  le_bytes 4 (bits_of_binary32 (SF_to_binary32 (Prim2SF x))).

(** A sample that [struct.pack("<f", _)] accepts: it is not a finite
    number that rounds to a binary32 infinity. *)
Definition packable (x : float) : bool :=
  match Prim2SF x, SF_to_binary32 (Prim2SF x) with
  | S754_finite _ _ _, S754_infinity _ => false
  | _, _ => true
  end.

(** The layout in the words of the specification.  One frame: the sample
    of every channel at time [t], in channel order. *)
Definition frame_bytes (channels : list (list float)) (t : nat) : list byte :=
  flat_map (fun c => f32_le (default 0%float (c !! t))) channels.

(** The payload: the frames in time order. *)
Definition wav_payload (channels : list (list float)) (num_samples : nat)
  : list byte :=
  flat_map (frame_bytes channels) (seq 0 num_samples).

(** The file: the RIFF group, the format sub-block, the data sub-block. *)
Definition wav_layout (channels : list (list float)) (sample_rate : Z)
  : list byte :=
  let n := Z.of_nat (length channels) in
  let num_samples := length (default [] (head channels)) in
  let data_size := Z.of_nat num_samples * n * 4 in
  bytes_lit "RIFF" ++ le_bytes 4 (36 + data_size) ++ bytes_lit "WAVE" ++
  bytes_lit "fmt " ++ le_bytes 4 16 ++ le_bytes 2 3 ++ le_bytes 2 n ++
  le_bytes 4 sample_rate ++ le_bytes 4 (sample_rate * n * 4) ++
  le_bytes 2 (n * 4) ++ le_bytes 2 32 ++
  bytes_lit "data" ++ le_bytes 4 data_size ++
  wav_payload channels num_samples.

(** The header fields fit the widths they are packed in. *)
Definition header_fits (channels : list (list float)) (sample_rate : Z) : Prop :=
  let n := Z.of_nat (length channels) in
  let num_samples := Z.of_nat (length (default [] (head channels))) in
  0 <= sample_rate /\
  sample_rate * n * 4 < 2 ^ 32 /\
  n * 4 < 2 ^ 16 /\
  36 + num_samples * n * 4 < 2 ^ 32.







(** The positions the main impulse and the taps of [refl] are written to:
    those of the indices that convert and pass the bounds test. *)
Definition written_positions {F : Type} `{PyArith F}
    (is_cross : bool) (cdm : F) (refl : list (F * F)) : list nat :=
  omap (fun r => match r with Ok d => position d | Raise _ => None end)
       (main_index is_cross cdm
        :: ((fun tap => tap_index is_cross cdm tap.1) <$> refl)).


(** The number a little-endian byte string stands for: what
    [struct.unpack] reads back from an unsigned field. *)
Definition le_value (bs : list byte) : Z :=
  fold_right (fun b acc => Z.of_N (Byte.to_N b) + 256 * acc) 0 bs.

(** The bytes [off .. off + len) of a file. *)
Definition field (file : list byte) (off len : nat) : list byte :=
  take len (drop off file).

(** * Properties *)

(** ** Results *)

Lemma rbind_Ok {A B} (r : result A) (k : A -> result B) (b : B) :
  r ≫= k = Ok b <-> exists a, r = Ok a /\ k a = Ok b.
Proof.
  destruct r as [a|e]; simpl; split.
  - intros Hk. exists a. auto.
  - intros (a' & Ha & Hk). congruence.
  - discriminate.
  - intros (a' & Ha & _). discriminate.
Qed.

(** ** Python list indexing *)

Section PyListFacts.
Context {A : Type}.
Implicit Types (l : list A) (i : Z) (k : nat).

Lemma py_index_nonneg l i :
  0 <= i < Z.of_nat (length l) -> py_index l i = Ok (Z.to_nat i).
Proof.
  intros Hi. unfold py_index.
  destruct (Z.leb_spec 0 i); [|lia].
  destruct (Z.ltb_spec i (Z.of_nat (length l))); [|lia].
  reflexivity.
Qed.

Lemma py_index_neg l i :
  - Z.of_nat (length l) <= i < 0 ->
  py_index l i = Ok (Z.to_nat (Z.of_nat (length l) + i)).
Proof.
  intros Hi. unfold py_index.
  destruct (Z.leb_spec 0 i); [lia|]. simpl.
  destruct (Z.leb_spec (- Z.of_nat (length l)) i); [|lia].
  destruct (Z.ltb_spec i 0); [|lia].
  reflexivity.
Qed.

Lemma py_index_below l i :
  i < - Z.of_nat (length l) -> py_index l i = Raise IndexError.
Proof.
  intros Hi. unfold py_index.
  destruct (Z.leb_spec 0 i); [lia|]. simpl.
  destruct (Z.leb_spec (- Z.of_nat (length l)) i); [lia|].
  reflexivity.
Qed.

Lemma py_index_above l i :
  Z.of_nat (length l) <= i -> py_index l i = Raise IndexError.
Proof.
  intros Hi. unfold py_index.
  destruct (Z.leb_spec 0 i); [|lia].
  destruct (Z.ltb_spec i (Z.of_nat (length l))); [lia|]. simpl.
  destruct (Z.leb_spec (- Z.of_nat (length l)) i); [|reflexivity].
  destruct (Z.ltb_spec i 0); [lia|reflexivity].
Qed.

(** A position returned by [py_index] lies inside the list. *)
Lemma py_index_lt l i k : py_index l i = Ok k -> (k < length l)%nat.
Proof.
  unfold py_index.
  destruct (Z.leb_spec 0 i), (Z.ltb_spec i (Z.of_nat (length l))); simpl;
    try (intros [= <-]; lia).
  all: destruct (Z.leb_spec (- Z.of_nat (length l)) i), (Z.ltb_spec i 0); simpl;
    try discriminate; intros [= <-]; lia.
Qed.

Lemma py_getitem_nat l k x :
  l !! k = Some x -> py_getitem l (Z.of_nat k) = Ok x.
Proof.
  intros Hk. unfold py_getitem.
  rewrite py_index_nonneg by (apply lookup_lt_Some in Hk; lia).
  simpl. rewrite Nat2Z.id, Hk. reflexivity.
Qed.

Lemma py_setitem_nat l k v :
  (k < length l)%nat -> py_setitem l (Z.of_nat k) v = Ok (<[k:=v]> l).
Proof.
  intros Hk. unfold py_setitem.
  rewrite py_index_nonneg by lia. simpl. rewrite Nat2Z.id. reflexivity.
Qed.

Lemma py_setitem_length l i v l' :
  py_setitem l i v = Ok l' -> length l' = length l.
Proof.
  unfold py_setitem. intros (k & _ & [= <-])%rbind_Ok.
  apply length_insert.
Qed.

(** Reading through a resolved index never fails. *)
Lemma py_getitem_index l i k :
  py_index l i = Ok k -> exists x, l !! k = Some x /\ py_getitem l i = Ok x.
Proof.
  intros Hk. destruct (lookup_lt_is_Some_2 l k (py_index_lt _ _ _ Hk)) as [x Hx].
  exists x. split; [assumption|].
  unfold py_getitem. rewrite Hk. simpl. rewrite Hx. reflexivity.
Qed.

End PyListFacts.

(** ** The low-pass filter *)

Section LowPass.
Context {F : Type} `{PyArith F}.

Lemma lpf_recurrence_length alpha state xs :
  length (lpf_recurrence alpha state xs) = length xs.
Proof.
  revert state. induction xs as [|x xs IH]; intros state; simpl; [reflexivity|].
  rewrite IH. reflexivity.
Qed.

(** The in-place loop, started at index [length done] with the samples
    before it already filtered, rewrites the rest by the recurrence. *)
Lemma lpf_loop_recurrence alpha done prev rest :
  lpf_loop alpha (seq (length done) (length rest)) prev (done ++ rest)
  = Ok (done ++ lpf_recurrence alpha prev rest).
Proof.
  revert done prev. induction rest as [|x rest IH]; intros done prev; simpl.
  - reflexivity.
  - rewrite (py_getitem_nat _ _ x) by apply list_lookup_middle, eq_refl.
    simpl.
    rewrite py_setitem_nat by (rewrite length_app; simpl; lia).
    simpl.
    rewrite (insert_app_r_alt done (x :: rest) (length done)) by lia.
    rewrite Nat.sub_diag. cbn [insert list_insert].
    set (prev' := add prev (mul alpha (sub x prev))).
    replace (done ++ prev' :: rest) with ((done ++ [prev']) ++ rest)
      by (rewrite <- app_assoc; reflexivity).
    replace (S (length done)) with (length (done ++ [prev']))
      by (rewrite length_app; simpl; lia).
    rewrite IH. rewrite <- app_assoc. reflexivity.
Qed.

Lemma lpf_loop_full alpha samples :
  lpf_loop alpha (seq 0 (length samples)) zero samples
  = Ok (lpf_recurrence alpha zero samples).
Proof. exact (lpf_loop_recurrence alpha [] zero samples). Qed.

(** The filter is its coefficient followed by the recurrence. *)
Lemma apply_lpf_to_impulse_eq samples cutoff_hz sample_rate :
  apply_lpf_to_impulse samples cutoff_hz sample_rate
  = alpha ← lpf_alpha cutoff_hz sample_rate;
    Ok (lpf_recurrence alpha zero samples).
Proof.
  unfold apply_lpf_to_impulse.
  destruct (lpf_alpha cutoff_hz sample_rate) as [alpha|e]; simpl; [|reflexivity].
  apply lpf_loop_full.
Qed.

Lemma lpf_alpha_Ok cutoff_hz sample_rate alpha :
  lpf_alpha cutoff_hz sample_rate = Ok alpha <->
  exists rc sr dt,
    div one (mul (mul two math_pi) cutoff_hz) = Ok rc /\
    of_int sample_rate = Ok sr /\
    div one sr = Ok dt /\
    div dt (add rc dt) = Ok alpha.
Proof.
  unfold lpf_alpha. rewrite rbind_Ok. split.
  - intros (rc & Hrc & (sr & Hsr & (dt & Hdt & Ha)%rbind_Ok)%rbind_Ok).
    exists rc, sr, dt. auto.
  - intros (rc & sr & dt & Hrc & Hsr & Hdt & Ha).
    exists rc. split; [assumption|].
    apply rbind_Ok. exists sr. split; [assumption|].
    apply rbind_Ok. exists dt. auto.
Qed.

(** The [n]-th output of the recurrence is the state after [n+1] samples. *)
Lemma lpf_recurrence_lookup alpha xs n :
  (n < length xs)%nat ->
  lpf_recurrence alpha zero xs !! n = Some (lpf_state alpha xs (S n)).
Proof.
  assert (Hgen : forall done rest k,
    (k < length rest)%nat ->
    lpf_recurrence alpha (lpf_state alpha (done ++ rest) (length done)) rest !! k
    = Some (lpf_state alpha (done ++ rest) (S (length done + k)))).
  { intros done rest. revert done.
    induction rest as [|x rest IH]; intros done k Hk; simpl in Hk; [lia|].
    destruct k as [|k].
    - cbn [lpf_recurrence lookup list_lookup].
      rewrite Nat.add_0_r. cbn [lpf_state].
      rewrite list_lookup_middle by reflexivity. reflexivity.
    - cbn [lpf_recurrence]. rewrite lookup_cons_ne_0 by lia. simpl Nat.pred.
      specialize (IH (done ++ [x]) k ltac:(lia)).
      rewrite <- app_assoc in IH. simpl in IH.
      rewrite length_app in IH. simpl length in IH.
      replace (length done + 1)%nat with (S (length done)) in IH by lia.
      cbn [lpf_state] in IH.
      rewrite list_lookup_middle in IH by reflexivity.
      replace (S (length done) + k)%nat with (length done + S k)%nat in IH by lia.
      exact IH. }
  intros Hn. exact (Hgen [] xs n Hn).
Qed.

End LowPass.

(** ** Placement of the impulses *)

Section Placement.
Context {F : Type} `{PyArith F}.
Implicit Types (buf out : list F) (d : Z) (k i : nat) (gain g cdm dm : F).

Lemma zeros_length : length zeros = Z.to_nat IR_SAMPLES.
Proof. apply length_replicate. Qed.

Lemma position_lt d k : position d = Some k -> (k < Z.to_nat IR_SAMPLES)%nat.
Proof.
  unfold position.
  destruct (Z.leb_spec IR_SAMPLES d); [discriminate|].
  destruct (Z.leb_spec 0 d); [intros [= <-]; lia|].
  destruct (Z.leb_spec (- IR_SAMPLES) d); [intros [= <-]; lia|discriminate].
Qed.

(** The subscript [buf[d]] under the bounds test, on a buffer of
    [IR_SAMPLES] samples. *)
Lemma guarded_index buf d :
  length buf = Z.to_nat IR_SAMPLES ->
  d < IR_SAMPLES ->
  py_index buf d = match position d with
                   | Some k => Ok k
                   | None => Raise IndexError
                   end.
Proof.
  intros Hlen Hd. unfold position.
  destruct (Z.leb_spec IR_SAMPLES d); [lia|].
  assert (Hn : Z.of_nat (length buf) = IR_SAMPLES)
    by (rewrite Hlen; unfold IR_SAMPLES; lia).
  destruct (Z.leb_spec 0 d).
  - apply py_index_nonneg. lia.
  - destruct (Z.leb_spec (- IR_SAMPLES) d).
    + rewrite py_index_neg by lia. rewrite Hn. reflexivity.
    + apply py_index_below. lia.
Qed.

(** What the main-impulse statement does, by the index it computes. *)
Lemma main_impulse_spec gain is_cross cdm buf d :
  length buf = Z.to_nat IR_SAMPLES ->
  main_index is_cross cdm = Ok d ->
  main_impulse gain is_cross cdm buf =
    match position d with
    | Some k => Ok (<[k:=gain]> buf)
    | None => if IR_SAMPLES <=? d then Ok buf else Raise IndexError
    end.
Proof.
  intros Hlen Hd. unfold main_impulse. fold (main_index is_cross cdm).
  rewrite Hd. simpl.
  destruct (Z.ltb_spec d IR_SAMPLES) as [Hlt|Hge].
  - unfold py_setitem. rewrite (guarded_index buf d Hlen Hlt).
    destruct (position d) as [k|]; simpl; [reflexivity|].
    destruct (Z.leb_spec IR_SAMPLES d); [lia|reflexivity].
  - unfold position. destruct (Z.leb_spec IR_SAMPLES d); [reflexivity|lia].
Qed.

(** What one iteration of the reflection loop does, by the index it
    computes. *)
Lemma reflection_step_spec is_cross cdm i dm g buf d :
  length buf = Z.to_nat IR_SAMPLES ->
  tap_index is_cross cdm dm = Ok d ->
  reflection_step is_cross cdm i (dm, g) buf =
    match position d with
    | Some k => Ok (<[k := add (default zero (buf !! k)) (mul g (polarity i))]> buf)
    | None => if IR_SAMPLES <=? d then Ok buf else Raise IndexError
    end.
Proof.
  intros Hlen Hd. unfold reflection_step.
  fold (tap_index is_cross cdm dm). rewrite Hd. simpl.
  destruct (Z.ltb_spec d IR_SAMPLES) as [Hlt|Hge].
  - pose proof (guarded_index buf d Hlen Hlt) as Hidx.
    destruct (position d) as [k|] eqn:Hpos.
    + destruct (py_getitem_index buf d k Hidx) as (x & Hx & Hget).
      rewrite Hget. simpl. unfold py_setitem. rewrite Hidx. simpl.
      rewrite Hx. reflexivity.
    + unfold py_getitem. rewrite Hidx. simpl.
      destruct (Z.leb_spec IR_SAMPLES d); [lia|reflexivity].
  - unfold position. destruct (Z.leb_spec IR_SAMPLES d); [reflexivity|lia].
Qed.

Lemma main_impulse_length gain is_cross cdm buf out :
  main_impulse gain is_cross cdm buf = Ok out -> length out = length buf.
Proof.
  unfold main_impulse. intros (d & _ & Hset)%rbind_Ok.
  destruct (d <? IR_SAMPLES).
  - exact (py_setitem_length _ _ _ _ Hset).
  - congruence.
Qed.

Lemma reflection_step_length is_cross cdm i tap buf out :
  reflection_step is_cross cdm i tap buf = Ok out -> length out = length buf.
Proof.
  unfold reflection_step. destruct tap as [dm g].
  intros (d & _ & Hstep)%rbind_Ok.
  destruct (d <? IR_SAMPLES).
  - apply rbind_Ok in Hstep as (old & _ & Hset).
    exact (py_setitem_length _ _ _ _ Hset).
  - congruence.
Qed.

Lemma reflections_loop_length is_cross cdm i refl buf out :
  reflections_loop is_cross cdm i refl buf = Ok out -> length out = length buf.
Proof.
  revert i buf. induction refl as [|tap refl IH]; intros i buf;
    cbn [reflections_loop].
  - congruence.
  - intros (buf' & Hstep & Hloop)%rbind_Ok.
    rewrite (IH _ _ Hloop). exact (reflection_step_length _ _ _ _ _ _ Hstep).
Qed.

End Placement.

(** ** The buffer after the main impulse and the reflections *)

Section Accumulation.
Context {F : Type} `{PyArith F}.
Implicit Types (buf out : list F) (d : Z) (k i : nat) (gain g cdm dm : F).

Lemma position_None d :
  - IR_SAMPLES <= d -> position d = None -> (IR_SAMPLES <=? d) = true.
Proof.
  unfold position. intros Hd.
  destruct (Z.leb_spec IR_SAMPLES d); [reflexivity|].
  destruct (Z.leb_spec 0 d); [discriminate|].
  destruct (Z.leb_spec (- IR_SAMPLES) d); [discriminate|lia].
Qed.

Lemma reflection_step_Ok is_cross cdm i tap buf out :
  reflection_step is_cross cdm i tap buf = Ok out ->
  exists d, tap_index is_cross cdm tap.1 = Ok d.
Proof.
  destruct tap as [dm g]. unfold reflection_step.
  fold (tap_index is_cross cdm dm).
  intros (d & Hd & _)%rbind_Ok. exists d. exact Hd.
Qed.

Lemma reflections_loop_lookup is_cross cdm refl : forall i buf out,
  length buf = Z.to_nat IR_SAMPLES ->
  reflections_loop is_cross cdm i refl buf = Ok out ->
  forall k x, buf !! k = Some x ->
    out !! k = Some (fold_left add (contributions is_cross cdm k i refl) x).
Proof.
  induction refl as [|[dm g] refl IH]; intros i buf out Hlen;
    cbn [reflections_loop contributions].
  - intros [= <-] k x Hk. exact Hk.
  - intros (buf' & Hstep & Hloop)%rbind_Ok k x Hk.
    destruct (reflection_step_Ok _ _ _ _ _ _ Hstep) as [d Hd]. simpl in Hd.
    pose proof (reflection_step_length _ _ _ _ _ _ Hstep) as Hlen'.
    rewrite Hlen in Hlen'.
    rewrite (reflection_step_spec _ _ _ _ _ _ d Hlen Hd) in Hstep.
    rewrite Hd.
    destruct (position d) as [k0|] eqn:Hpos.
    + injection Hstep as <-.
      destruct (decide (Some k0 = Some k)) as [[= ->]|Hne].
      * simpl. apply (IH _ _ _ Hlen' Hloop).
        rewrite list_lookup_insert_eq by (apply lookup_lt_Some in Hk; lia).
        rewrite Hk. reflexivity.
      * simpl. apply (IH _ _ _ Hlen' Hloop).
        rewrite list_lookup_insert_ne by congruence. exact Hk.
    + destruct (IR_SAMPLES <=? d); [|discriminate].
      injection Hstep as <-.
      destruct (decide (None = Some k)) as [[=]|_].
      simpl. exact (IH _ _ _ Hlen Hloop k x Hk).
Qed.

Lemma reflections_loop_total is_cross cdm refl : forall i buf,
  length buf = Z.to_nat IR_SAMPLES ->
  Forall (fun tap => placeable (tap_index is_cross cdm tap.1)) refl ->
  exists out, reflections_loop is_cross cdm i refl buf = Ok out.
Proof.
  induction refl as [|[dm g] refl IH]; intros i buf Hlen Hall;
    cbn [reflections_loop].
  - exists buf. reflexivity.
  - apply Forall_cons in Hall as [(d & Hd & Hge) Hall]. simpl in Hd.
    rewrite (reflection_step_spec _ _ _ _ _ _ d Hlen Hd).
    destruct (position d) as [k0|] eqn:Hpos.
    + simpl. apply IH; [|exact Hall]. rewrite length_insert. exact Hlen.
    + rewrite (position_None d Hge Hpos). simpl. apply IH; assumption.
Qed.

Lemma main_impulse_lookup gain is_cross cdm d out :
  main_index is_cross cdm = Ok d ->
  main_impulse gain is_cross cdm zeros = Ok out ->
  forall k, (k < Z.to_nat IR_SAMPLES)%nat ->
    out !! k = Some (if decide (position d = Some k) then gain else zero).
Proof.
  intros Hd Hmain k Hk.
  rewrite (main_impulse_spec _ _ _ _ d zeros_length Hd) in Hmain.
  assert (Hz : zeros !! k = Some zero) by (apply lookup_replicate_2; exact Hk).
  destruct (position d) as [k0|] eqn:Hpos.
  - injection Hmain as <-.
    destruct (decide (Some k0 = Some k)) as [[= ->]|Hne].
    + apply list_lookup_insert_eq. rewrite zeros_length. exact Hk.
    + rewrite list_lookup_insert_ne by congruence. exact Hz.
  - destruct (IR_SAMPLES <=? d); [|discriminate].
    injection Hmain as <-.
    destruct (decide (None = Some k)) as [[=]|_]. exact Hz.
Qed.

Lemma main_impulse_total gain is_cross cdm :
  placeable (main_index is_cross cdm) ->
  exists out, main_impulse gain is_cross cdm zeros = Ok out.
Proof.
  intros (d & Hd & Hge).
  rewrite (main_impulse_spec _ _ _ _ d zeros_length Hd).
  destruct (position d) as [k0|] eqn:Hpos; [eauto|].
  rewrite (position_None d Hge Hpos). eauto.
Qed.

(** The unfiltered channel: it is produced whenever every delay is
    placeable, and each of its samples is the main impulse (or zero)
    with the contributions of the taps that fall on it added in order. *)
Lemma generate_channel_unfiltered gain refl is_cross cdm d0 :
  main_index is_cross cdm = Ok d0 ->
  - IR_SAMPLES <= d0 ->
  Forall (fun tap => placeable (tap_index is_cross cdm tap.1)) refl ->
  exists out,
    generate_channel gain refl is_cross cdm None = Ok out /\
    length out = Z.to_nat IR_SAMPLES /\
    forall k, (k < Z.to_nat IR_SAMPLES)%nat ->
      out !! k = Some (fold_left add (contributions is_cross cdm k 0 refl)
                         (if decide (position d0 = Some k) then gain else zero)).
Proof.
  intros Hd0 Hge Hall. unfold generate_channel. fold zeros.
  destruct (main_impulse_total gain is_cross cdm) as [buf1 Hmain];
    [exists d0; auto|].
  rewrite Hmain. simpl.
  pose proof (main_impulse_length _ _ _ _ _ Hmain) as Hlen1.
  rewrite zeros_length in Hlen1.
  destruct (reflections_loop_total is_cross cdm refl 0%nat buf1 Hlen1 Hall)
    as [out Hloop].
  rewrite Hloop. simpl. exists out. split; [reflexivity|]. split.
  - rewrite (reflections_loop_length _ _ _ _ _ _ Hloop). exact Hlen1.
  - intros k Hk.
    apply (reflections_loop_lookup _ _ _ _ _ _ Hlen1 Hloop).
    exact (main_impulse_lookup _ _ _ _ _ Hd0 Hmain k Hk).
Qed.

End Accumulation.

(** ** The synthesizer: placement, accumulation, bounds, filtering *)

Section SynthesizerClaims.
Context {F : Type} `{PyArith F}.
Implicit Types (buf out : list F) (d : Z) (k i : nat) (gain g cdm dm : F).

Lemma position_in_range d :
  0 <= d < IR_SAMPLES -> position d = Some (Z.to_nat d).
Proof.
  intros Hd. unfold position.
  destruct (Z.leb_spec IR_SAMPLES d); [lia|].
  destruct (Z.leb_spec 0 d); [reflexivity|lia].
Qed.

Lemma position_negative d :
  - IR_SAMPLES <= d < 0 -> position d = Some (Z.to_nat (IR_SAMPLES + d)).
Proof.
  intros Hd. unfold position.
  destruct (Z.leb_spec IR_SAMPLES d); [unfold IR_SAMPLES in *; lia|].
  destruct (Z.leb_spec 0 d); [lia|].
  destruct (Z.leb_spec (- IR_SAMPLES) d); [reflexivity|lia].
Qed.

Lemma position_omitted d : IR_SAMPLES <= d -> position d = None.
Proof.
  intros Hd. unfold position.
  destruct (Z.leb_spec IR_SAMPLES d); [reflexivity|lia].
Qed.

(** With no reflections and no filter, the channel is the zero buffer
    with the main impulse written at its position. *)
Lemma generate_channel_impulse_only gain is_cross cdm d k :
  main_index is_cross cdm = Ok d ->
  position d = Some k ->
  generate_channel gain [] is_cross cdm None = Ok (<[k:=gain]> zeros).
Proof.
  intros Hd Hpos. unfold generate_channel. fold zeros.
  rewrite (main_impulse_spec _ _ _ _ d zeros_length Hd), Hpos.
  reflexivity.
Qed.

(** C4: the reflection loop takes the taps in input order; the tap at
    position [i] whose index [d] is in bounds adds [ref_gain * polarity]
    to [buf[d]] and changes no other sample, with [polarity] 1 for even
    [i] and -1 for odd [i]; so each sample of the unfiltered channel is
    the main impulse (or zero) plus, in order, the signed gains of all
    the taps that fall on it. *)
Theorem reflections_accumulate gain refl is_cross cdm d0 :
  main_index is_cross cdm = Ok d0 ->
  - IR_SAMPLES <= d0 ->
  Forall (fun tap => placeable (tap_index is_cross cdm tap.1)) refl ->
  (forall i dm g buf d,
      length buf = Z.to_nat IR_SAMPLES ->
      tap_index is_cross cdm dm = Ok d ->
      0 <= d < IR_SAMPLES ->
      reflection_step is_cross cdm i (dm, g) buf
      = Ok (<[Z.to_nat d :=
                add (default zero (buf !! Z.to_nat d)) (mul g (polarity i))]> buf)) /\
  (forall i, polarity (2 * i) = one /\ polarity (2 * i + 1) = opp one) /\
  exists out,
    generate_channel gain refl is_cross cdm None = Ok out /\
    forall k, (k < Z.to_nat IR_SAMPLES)%nat ->
      out !! k = Some (fold_left add (contributions is_cross cdm k 0 refl)
                         (if decide (position d0 = Some k) then gain else zero)).
Proof.
  intros Hd0 Hge Hall. split; [|split].
  - intros i dm g buf d Hlen Hd Hin.
    rewrite (reflection_step_spec _ _ _ _ _ _ d Hlen Hd).
    rewrite (position_in_range d Hin). reflexivity.
  - intros i. unfold polarity. split.
    + rewrite Nat.even_mul. reflexivity.
    + rewrite Nat.even_add, Nat.even_mul. reflexivity.
  - destruct (generate_channel_unfiltered gain refl is_cross cdm d0 Hd0 Hge Hall)
      as (out & Hout & _ & Hk).
    exists out. auto.
Qed.

(** C10: the bounds test has no lower bound.  A main impulse or a tap
    whose index [d] is negative with [-IR_SAMPLES <= d] is not dropped:
    it is written at [IR_SAMPLES + d], counted from the end of the buffer. *)
Theorem negative_index_wraps gain is_cross cdm i dm g buf d :
  length buf = Z.to_nat IR_SAMPLES ->
  - IR_SAMPLES <= d < 0 ->
  (main_index is_cross cdm = Ok d ->
     main_impulse gain is_cross cdm buf
       = Ok (<[Z.to_nat (IR_SAMPLES + d) := gain]> buf) /\
     generate_channel gain [] is_cross cdm None
       = Ok (<[Z.to_nat (IR_SAMPLES + d) := gain]> zeros)) /\
  (tap_index is_cross cdm dm = Ok d ->
     reflection_step is_cross cdm i (dm, g) buf
       = Ok (<[Z.to_nat (IR_SAMPLES + d) :=
                 add (default zero (buf !! Z.to_nat (IR_SAMPLES + d)))
                     (mul g (polarity i))]> buf)).
Proof.
  intros Hlen Hd. pose proof (position_negative d Hd) as Hpos. split.
  - intros Hmain. split.
    + rewrite (main_impulse_spec _ _ _ _ d Hlen Hmain), Hpos. reflexivity.
    + exact (generate_channel_impulse_only _ _ _ _ _ Hmain Hpos).
  - intros Htap.
    rewrite (reflection_step_spec _ _ _ _ _ _ d Hlen Htap), Hpos. reflexivity.
Qed.

Lemma generate_channel_filter gain refl is_cross cdm lpf :
  generate_channel gain refl is_cross cdm lpf =
    buf ← generate_channel gain refl is_cross cdm None;
    match lpf with
    | Some f => if is_cross && truthy f
                then apply_lpf_to_impulse buf f SAMPLE_RATE else Ok buf
    | None => Ok buf
    end.
Proof.
  unfold generate_channel.
  destruct (main_impulse gain is_cross cdm _) as [buf1|e]; simpl; [|reflexivity].
  destruct (reflections_loop is_cross cdm 0 refl buf1) as [buf2|e];
    reflexivity.
Qed.

Lemma position_Some_ge d k : position d = Some k -> - IR_SAMPLES <= d.
Proof.
  unfold position.
  destruct (Z.leb_spec IR_SAMPLES d); [discriminate|].
  destruct (Z.leb_spec 0 d); [unfold IR_SAMPLES; lia|].
  destruct (Z.leb_spec (- IR_SAMPLES) d); [lia|discriminate].
Qed.

(** A main impulse that is written or dropped has a placeable index. *)
Lemma main_impulse_placeable gain is_cross cdm buf out :
  length buf = Z.to_nat IR_SAMPLES ->
  main_impulse gain is_cross cdm buf = Ok out ->
  placeable (main_index is_cross cdm).
Proof.
  intros Hlen Hout.
  destruct (main_index is_cross cdm) as [d|e] eqn:Hd.
  - exists d. split; [reflexivity|].
    rewrite (main_impulse_spec _ _ _ _ d Hlen Hd) in Hout.
    destruct (position d) as [k|] eqn:Hpos; [exact (position_Some_ge d k Hpos)|].
    destruct (Z.leb_spec IR_SAMPLES d); [unfold IR_SAMPLES in *; lia|discriminate].
  - unfold main_impulse in Hout. fold (main_index is_cross cdm) in Hout.
    rewrite Hd in Hout. discriminate.
Qed.

Lemma reflection_step_placeable is_cross cdm i tap buf out :
  length buf = Z.to_nat IR_SAMPLES ->
  reflection_step is_cross cdm i tap buf = Ok out ->
  placeable (tap_index is_cross cdm tap.1).
Proof.
  intros Hlen Hout. destruct tap as [dm g].
  destruct (reflection_step_Ok _ _ _ _ _ _ Hout) as [d Hd]. cbn [fst] in *.
  exists d. split; [exact Hd|].
  rewrite (reflection_step_spec _ _ _ _ _ _ d Hlen Hd) in Hout.
  destruct (position d) as [k|] eqn:Hpos; [exact (position_Some_ge d k Hpos)|].
  destruct (Z.leb_spec IR_SAMPLES d); [unfold IR_SAMPLES in *; lia|discriminate].
Qed.

Lemma reflections_loop_placeable is_cross cdm refl : forall i buf out,
  length buf = Z.to_nat IR_SAMPLES ->
  reflections_loop is_cross cdm i refl buf = Ok out ->
  Forall (fun tap => placeable (tap_index is_cross cdm tap.1)) refl.
Proof.
  induction refl as [|tap refl IH]; intros i buf out Hlen;
    cbn [reflections_loop].
  - intros _. constructor.
  - intros (buf' & Hstep & Hloop)%rbind_Ok. apply Forall_cons. split.
    + exact (reflection_step_placeable _ _ _ _ _ _ Hlen Hstep).
    + apply (IH (S i) buf' out); [|exact Hloop].
      rewrite (reflection_step_length _ _ _ _ _ _ Hstep). exact Hlen.
Qed.

(** Every channel the synthesizer returns has [IR_SAMPLES] samples. *)
Lemma generate_channel_length gain refl is_cross cdm lpf out :
  generate_channel gain refl is_cross cdm lpf = Ok out ->
  length out = Z.to_nat IR_SAMPLES.
Proof.
  rewrite generate_channel_filter.
  intros (buf & Hbuf & Hout)%rbind_Ok.
  assert (Hlen : length buf = Z.to_nat IR_SAMPLES).
  { unfold generate_channel in Hbuf.
    apply rbind_Ok in Hbuf as (b1 & Hmain & (b2 & Hloop & [= <-])%rbind_Ok).
    rewrite (reflections_loop_length _ _ _ _ _ _ Hloop).
    rewrite (main_impulse_length _ _ _ _ _ Hmain).
    apply length_replicate. }
  destruct lpf as [f|]; [|congruence].
  destruct (is_cross && truthy f); [|congruence].
  rewrite apply_lpf_to_impulse_eq in Hout.
  apply rbind_Ok in Hout as (alpha & _ & [= <-]).
  rewrite lpf_recurrence_length. exact Hlen.
Qed.

(** The synthesizer returns a buffer, raising nothing, exactly when
    every delay is placeable and, where the filter runs, its coefficient
    is defined. *)
Lemma generate_channel_Ok_iff gain refl is_cross cdm lpf :
  (exists out, generate_channel gain refl is_cross cdm lpf = Ok out) <->
  placeable (main_index is_cross cdm) /\
  Forall (fun tap => placeable (tap_index is_cross cdm tap.1)) refl /\
  (forall f, lpf = Some f -> filter_runs is_cross lpf = true ->
             exists alpha, lpf_alpha f SAMPLE_RATE = Ok alpha).
Proof.
  split.
  - intros [out Hout]. rewrite generate_channel_filter in Hout.
    apply rbind_Ok in Hout as (buf & Hbuf & Hfilter).
    unfold generate_channel in Hbuf. fold zeros in Hbuf.
    apply rbind_Ok in Hbuf as (b1 & Hmain & (b2 & Hloop & [= <-])%rbind_Ok).
    pose proof (main_impulse_length _ _ _ _ _ Hmain) as Hlen1.
    rewrite zeros_length in Hlen1.
    split; [exact (main_impulse_placeable _ _ _ _ _ zeros_length Hmain)|].
    split; [exact (reflections_loop_placeable _ _ _ _ _ _ Hlen1 Hloop)|].
    intros f -> Hrun. unfold filter_runs in Hrun. rewrite Hrun in Hfilter.
    rewrite apply_lpf_to_impulse_eq in Hfilter.
    apply rbind_Ok in Hfilter as (alpha & Halpha & _). eauto.
  - intros ((d0 & Hd0 & Hge0) & Hall & Hlpf).
    destruct (generate_channel_unfiltered gain refl is_cross cdm d0 Hd0 Hge0 Hall)
      as (buf & Hbuf & Hlen & _).
    rewrite generate_channel_filter, Hbuf. simpl.
    destruct lpf as [f|]; [|eauto].
    destruct (is_cross && truthy f) eqn:Hrun; [|eauto].
    destruct (Hlpf f eq_refl Hrun) as [alpha Halpha].
    rewrite apply_lpf_to_impulse_eq, Halpha. simpl. eauto.
Qed.

(** A main impulse or a tap whose index is not less than [IR_SAMPLES]
    leaves the buffer as it is. *)
Lemma omitted_index_unchanged gain is_cross cdm buf d :
  length buf = Z.to_nat IR_SAMPLES -> IR_SAMPLES <= d ->
  (main_index is_cross cdm = Ok d ->
     main_impulse gain is_cross cdm buf = Ok buf) /\
  (forall i dm g, tap_index is_cross cdm dm = Ok d ->
     reflection_step is_cross cdm i (dm, g) buf = Ok buf).
Proof.
  intros Hlen Hd. pose proof (position_omitted d Hd) as Hpos.
  destruct (Z.leb_spec IR_SAMPLES d) as [_|]; [|lia].
  split.
  - intros Hmain.
    rewrite (main_impulse_spec _ _ _ _ d Hlen Hmain), Hpos.
    destruct (Z.leb_spec IR_SAMPLES d); [reflexivity|lia].
  - intros i dm g Htap.
    rewrite (reflection_step_spec _ _ _ _ _ _ d Hlen Htap), Hpos.
    destruct (Z.leb_spec IR_SAMPLES d); [reflexivity|lia].
Qed.

(** In any arithmetic: with [rc = 1/(2 pi f_c)], [dt = 1/f_s] and
    [alpha = dt/(rc+dt)] defined, the filter makes one pass over the whole
    buffer in increasing index order from the state 0: sample [n] becomes
    the state after [n+1] samples, where each state is
    [state + alpha * (x[n] - state)]. *)
Lemma apply_lpf_by_recurrence samples f_c f_s rc sr dt alpha :
  div one (mul (mul two math_pi) f_c) = Ok rc ->
  of_int f_s = Ok sr ->
  div one sr = Ok dt ->
  div dt (add rc dt) = Ok alpha ->
  apply_lpf_to_impulse samples f_c f_s = Ok (lpf_recurrence alpha zero samples) /\
  length (lpf_recurrence alpha zero samples) = length samples /\
  lpf_state alpha samples 0 = zero /\
  forall n x, samples !! n = Some x ->
    lpf_recurrence alpha zero samples !! n = Some (lpf_state alpha samples (S n)) /\
    lpf_state alpha samples (S n)
      = add (lpf_state alpha samples n)
            (mul alpha (sub x (lpf_state alpha samples n))).
Proof.
  intros Hrc Hsr Hdt Halpha.
  assert (Ha : lpf_alpha f_c f_s = Ok alpha)
    by (apply lpf_alpha_Ok; exists rc, sr, dt; auto).
  split; [|split; [|split]].
  - rewrite apply_lpf_to_impulse_eq, Ha. reflexivity.
  - apply lpf_recurrence_length.
  - reflexivity.
  - intros n x Hn. split.
    + apply lpf_recurrence_lookup. apply lookup_lt_Some in Hn. exact Hn.
    + cbn [lpf_state]. rewrite Hn. reflexivity.
Qed.


End SynthesizerClaims.


(** ** Facts of the binary64 instance *)

Module Binary64Facts.
Import Binary64.

Lemma Prim2SF_inj (x y : float) : Prim2SF x = Prim2SF y -> x = y.
Proof.
  intros Hxy. rewrite <- (SF2Prim_Prim2SF x), <- (SF2Prim_Prim2SF y), Hxy.
  reflexivity.
Qed.

(** [bool(x)] is false exactly on the two zeros; a NaN is true. *)
Lemma float_truthy_false (x : float) :
  float_truthy x = false <-> exists s, Prim2SF x = S754_zero s.
Proof.
  unfold float_truthy. rewrite FloatAxioms.eqb_spec.
  change (Prim2SF 0%float) with (S754_zero false).
  destruct (Prim2SF x) as [s|s| |s m e]; simpl; split;
    try (destruct s; simpl).
  all: first [ discriminate
             | (intros [s' Hs']; discriminate Hs')
             | (intros _; eauto) ].
Qed.

Lemma positive_truthy (x : float) :
  PrimFloat.ltb 0%float x = true -> float_truthy x = true.
Proof.
  rewrite FloatAxioms.ltb_spec. change (Prim2SF 0%float) with (S754_zero false).
  intros Hlt. destruct (float_truthy x) eqn:Ht; [reflexivity|].
  apply float_truthy_false in Ht as [s Hs]. rewrite Hs in Hlt. discriminate.
Qed.

Lemma negative_truthy (x : float) :
  PrimFloat.ltb x 0%float = true -> float_truthy x = true.
Proof.
  rewrite FloatAxioms.ltb_spec. change (Prim2SF 0%float) with (S754_zero false).
  intros Hlt. destruct (float_truthy x) eqn:Ht; [reflexivity|].
  apply float_truthy_false in Ht as [s Hs]. rewrite Hs in Hlt. discriminate.
Qed.



End Binary64Facts.

(** ** Facts of the exact instance *)

Module ExactFacts.
Import Exact.
Local Open Scope Qc_scope.















End ExactFacts.

(** ** Rounding to binary64: magnitudes *)

Section Digits.

Lemma digits2_pos_bounds (p : positive) :
  2 ^ (Zpos (digits2_pos p) - 1) <= Zpos p < 2 ^ Zpos (digits2_pos p).
Proof.
  induction p as [p IH|p IH|]; cbn [digits2_pos].
  - rewrite Pos2Z.inj_succ. change (Z.pos p~1) with (2 * Z.pos p + 1).
    replace (Z.succ (Zpos (digits2_pos p)) - 1) with (Z.succ (Zpos (digits2_pos p) - 1)) by lia.
    rewrite !Z.pow_succ_r by lia.
    remember (2 ^ (Z.pos (digits2_pos p) - 1)) as A eqn:HA.
    remember (2 ^ Z.pos (digits2_pos p)) as B eqn:HB. clear HA HB. lia.
  - rewrite Pos2Z.inj_succ. change (Z.pos p~0) with (2 * Z.pos p).
    replace (Z.succ (Zpos (digits2_pos p)) - 1) with (Z.succ (Zpos (digits2_pos p) - 1)) by lia.
    rewrite !Z.pow_succ_r by lia.
    remember (2 ^ (Z.pos (digits2_pos p) - 1)) as A eqn:HA.
    remember (2 ^ Z.pos (digits2_pos p)) as B eqn:HB. clear HA HB. lia.
  - simpl. lia.
Qed.

Lemma Zdigits2_bounds (x : Z) :
  0 < x -> 2 ^ (Zdigits2 x - 1) <= x < 2 ^ Zdigits2 x.
Proof.
  destruct x as [|p|p]; try lia. intros _. apply digits2_pos_bounds.
Qed.

Lemma Zdigits2_pos (x : Z) : 0 < x -> 0 < Zdigits2 x.
Proof. destruct x; simpl; lia. Qed.

Lemma Zdigits2_nonneg (x : Z) : 0 <= Zdigits2 x.
Proof. destruct x; simpl; lia. Qed.

Lemma Zdigits2_unique (x a : Z) :
  2 ^ (a - 1) <= x < 2 ^ a -> 0 < x -> Zdigits2 x = a.
Proof.
  intros [Hlo Hhi] Hx.
  pose proof (Zdigits2_bounds x Hx) as [Dlo Dhi].
  pose proof (Zdigits2_pos x Hx) as Dpos.
  assert (Ha : 0 < a).
  { destruct (Z.lt_ge_cases 0 a) as [|Hle]; [assumption|].
    assert (2 ^ a <= 2 ^ 0) by (apply Z.pow_le_mono_r; lia).
    simpl in *. lia. }
  destruct (Z.lt_trichotomy (Zdigits2 x) a) as [Hlt|[Heq|Hgt]]; [|exact Heq|].
  - assert (2 ^ Zdigits2 x <= 2 ^ (a - 1)) by (apply Z.pow_le_mono_r; lia). lia.
  - assert (2 ^ a <= 2 ^ (Zdigits2 x - 1)) by (apply Z.pow_le_mono_r; lia). lia.
Qed.

Lemma Zdigits2_mono (x y : Z) : 0 < x <= y -> Zdigits2 x <= Zdigits2 y.
Proof.
  intros [Hx Hxy].
  pose proof (Zdigits2_bounds x Hx) as [Xlo Xhi].
  pose proof (Zdigits2_bounds y ltac:(lia)) as [Ylo Yhi].
  destruct (Z.le_gt_cases (Zdigits2 x) (Zdigits2 y)) as [|Hgt]; [assumption|].
  assert (2 ^ Zdigits2 y <= 2 ^ (Zdigits2 x - 1)) by (apply Z.pow_le_mono_r; lia).
  lia.
Qed.

Lemma Zdigits2_div (x k : Z) :
  0 < x -> 0 <= k < Zdigits2 x ->
  0 < x / 2 ^ k /\ Zdigits2 (x / 2 ^ k) = Zdigits2 x - k.
Proof.
  intros Hx Hk.
  pose proof (Zdigits2_bounds x Hx) as [Xlo Xhi].
  assert (Hp : 0 < 2 ^ k) by (apply Z.pow_pos_nonneg; lia).
  assert (Hlo : 2 ^ (Zdigits2 x - k - 1) <= x / 2 ^ k).
  { apply Z.div_le_lower_bound; [exact Hp|].
    rewrite <- Z.pow_add_r by lia.
    replace (k + (Zdigits2 x - k - 1)) with (Zdigits2 x - 1) by lia. exact Xlo. }
  assert (Hhi : x / 2 ^ k < 2 ^ (Zdigits2 x - k)).
  { apply Z.div_lt_upper_bound; [exact Hp|].
    rewrite <- Z.pow_add_r by lia.
    replace (k + (Zdigits2 x - k)) with (Zdigits2 x) by lia. exact Xhi. }
  assert (Hq : 0 < x / 2 ^ k).
  { assert (0 < 2 ^ (Zdigits2 x - k - 1)) by (apply Z.pow_pos_nonneg; lia). lia. }
  split; [exact Hq|].
  apply Zdigits2_unique; [|exact Hq]. split; assumption.
Qed.

Lemma Zdigits2_div_small (x k : Z) :
  0 <= x -> Zdigits2 x <= k -> x / 2 ^ k = 0.
Proof.
  intros Hx Hk. destruct (Z.eq_dec x 0) as [->|Hne].
  - apply Z.div_0_l. apply Z.pow_nonzero; [lia|]. pose proof (Zdigits2_nonneg 0). simpl in *. lia.
  - pose proof (Zdigits2_bounds x ltac:(lia)) as [_ Xhi].
    apply Z.div_small. split; [lia|].
    assert (2 ^ Zdigits2 x <= 2 ^ k) by (apply Z.pow_le_mono_r; lia). lia.
Qed.

End Digits.

Section RoundAux.

Lemma Zdigits2_succ (x : Z) : 0 <= x -> Zdigits2 (x + 1) <= Zdigits2 x + 1.
Proof.
  intros Hx. destruct (Z.eq_dec x 0) as [->|Hne]; [simpl; lia|].
  pose proof (Zdigits2_bounds x ltac:(lia)) as [_ Xhi].
  pose proof (Zdigits2_bounds (x + 1) ltac:(lia)) as [Slo _].
  pose proof (Zdigits2_pos x ltac:(lia)) as Dpos.
  destruct (Z.le_gt_cases (Zdigits2 (x + 1)) (Zdigits2 x + 1)) as [|Hgt]; [assumption|].
  assert (2 ^ (Zdigits2 x + 1) <= 2 ^ (Zdigits2 (x + 1) - 1))
    by (apply Z.pow_le_mono_r; lia).
  rewrite Z.pow_add_r in H by lia. simpl in H. lia.
Qed.

Lemma shr_1_m (mrs : shr_record) :
  0 <= shr_m mrs -> shr_m (shr_1 mrs) = shr_m mrs / 2.
Proof.
  intros Hm. rewrite <- Z.div2_div.
  destruct mrs as [m r s]. simpl in *.
  destruct m as [|[p|p|]|p]; try reflexivity. lia.
Qed.

Lemma iter_shr_1_m (p : positive) : forall mrs : shr_record,
  0 <= shr_m mrs ->
  shr_m (SpecFloat.iter_pos shr_1 p mrs) = shr_m mrs / 2 ^ Zpos p.
Proof.
  assert (Hdiv : forall a b c, 0 < b -> 0 < c -> a / b / c = a / (b * c)).
  { intros a b c Hb Hc. apply Z.div_div; lia. }
  assert (Hnn : forall a b, 0 <= a -> 0 < b -> 0 <= a / b).
  { intros a b Ha Hb. apply Z.div_pos; assumption. }
  induction p as [p IH|p IH|]; intros mrs Hm; cbn [SpecFloat.iter_pos].
  - assert (Hp : 0 < 2 ^ Zpos p) by (apply Z.pow_pos_nonneg; lia).
    assert (H1 : 0 <= shr_m (shr_1 mrs))
      by (rewrite shr_1_m by exact Hm; apply Hnn; lia).
    rewrite IH by (rewrite IH by exact H1; apply Hnn; [exact H1|exact Hp]).
    rewrite IH by exact H1. rewrite shr_1_m by exact Hm.
    rewrite !Hdiv by lia. f_equal.
    change (Zpos p~1) with (2 * Zpos p + 1).
    rewrite Z.pow_add_r, Z.pow_mul_r by lia.
    change (2 ^ 2) with 4. change (2 ^ 1) with 2.
    replace (4 ^ Zpos p) with (2 ^ Zpos p * 2 ^ Zpos p).
    + lia.
    + rewrite <- Z.pow_mul_l. reflexivity.
  - assert (Hp : 0 < 2 ^ Zpos p) by (apply Z.pow_pos_nonneg; lia).
    rewrite IH by (rewrite IH by exact Hm; apply Hnn; [exact Hm|exact Hp]).
    rewrite IH by exact Hm.
    rewrite !Hdiv by lia. f_equal.
    change (Zpos p~0) with (2 * Zpos p).
    rewrite Z.pow_mul_r by lia. change (2 ^ 2) with 4.
    rewrite <- Z.pow_mul_l. reflexivity.
  - rewrite shr_1_m by exact Hm. reflexivity.
Qed.

Lemma shr_spec (mrs : shr_record) (e n : Z) :
  0 <= shr_m mrs ->
  shr_m (fst (shr mrs e n)) = shr_m mrs / 2 ^ Z.max 0 n /\
  snd (shr mrs e n) = e + Z.max 0 n.
Proof.
  intros Hm. destruct n as [|p|p]; simpl shr; cbn [fst snd].
  - simpl. rewrite Z.div_1_r. split; [reflexivity|lia].
  - rewrite Z.max_r by lia. split; [apply iter_shr_1_m; exact Hm|reflexivity].
  - rewrite Z.max_l by lia. simpl. rewrite Z.div_1_r. split; [reflexivity|lia].
Qed.

Lemma round_nearest_even_cases (m : Z) (l : location) :
  round_nearest_even m l = m \/ round_nearest_even m l = m + 1.
Proof.
  destruct l as [|[]]; simpl; auto.
  destruct (Z.even m); auto.
Qed.

(** The binary64 exponent function. *)
Lemma fexp64 (z : Z) : fexp prec emax z = Z.max (z - 53) (-1074).
Proof. reflexivity. Qed.

(** The anatomy of a rounding: a shift, a rounding of the last place, a
    second shift. *)
Lemma binary_round_aux_cases (s : bool) (m e : Z) (l : location) :
  0 <= m ->
  exists m2,
    let k1 := Z.max 0 (fexp prec emax (Zdigits2 m + e) - e) in
    let m1 := m / 2 ^ k1 in
    let e1 := e + k1 in
    let k2 := Z.max 0 (fexp prec emax (Zdigits2 m2 + e1) - e1) in
    let m3 := m2 / 2 ^ k2 in
    let e3 := e1 + k2 in
    (m2 = m1 \/ m2 = m1 + 1) /\
    binary_round_aux prec emax s m e l =
      match m3 with
      | 0 => S754_zero s
      | Zpos p => if e3 <=? emax - prec then S754_finite s p e3
                  else S754_infinity s
      | Zneg _ => S754_nan
      end.
Proof.
  intros Hm. unfold binary_round_aux, shr_fexp.
  set (k1 := Z.max 0 (fexp prec emax (Zdigits2 m + e) - e)).
  pose proof (shr_spec (shr_record_of_loc m l) e
                (fexp prec emax (Zdigits2 m + e) - e)) as Hs1.
  assert (Hm0 : shr_m (shr_record_of_loc m l) = m) by (destruct l as [|[]]; reflexivity).
  rewrite Hm0 in Hs1. specialize (Hs1 Hm). fold k1 in Hs1.
  destruct (shr (shr_record_of_loc m l) e (fexp prec emax (Zdigits2 m + e) - e))
    as [mrs1 e1] eqn:Hshr1.
  cbn [fst snd] in Hs1. destruct Hs1 as [Hm1 He1].
  cbv beta iota.
  set (m2 := round_nearest_even (shr_m mrs1) (loc_of_shr_record mrs1)).
  exists m2. cbv zeta.
  assert (Hk1 : 0 < 2 ^ k1) by (apply Z.pow_pos_nonneg; unfold k1; lia).
  assert (Hm1nn : 0 <= m / 2 ^ k1) by (apply Z.div_pos; assumption).
  split.
  { rewrite <- Hm1. apply round_nearest_even_cases. }
  assert (Hm2 : 0 <= m2).
  { destruct (round_nearest_even_cases (shr_m mrs1) (loc_of_shr_record mrs1))
      as [H|H]; fold m2 in H; rewrite H, Hm1; lia. }
  pose proof (shr_spec (shr_record_of_loc m2 loc_Exact) e1
                (fexp prec emax (Zdigits2 m2 + e1) - e1)) as Hs2.
  specialize (Hs2 Hm2).
  destruct (shr (shr_record_of_loc m2 loc_Exact) e1
              (fexp prec emax (Zdigits2 m2 + e1) - e1)) as [mrs2 e2] eqn:Hshr2.
  cbn [fst snd] in Hs2. destruct Hs2 as [Hm3 He3].
  rewrite Hm3, He3, He1. reflexivity.
Qed.

(** What a rounding of a non-negative mantissa can be, and when it is
    neither zero nor an infinity. *)
Lemma binary_round_aux_result (s : bool) (m e : Z) (l : location) :
  0 <= m ->
  let r := binary_round_aux prec emax s m e l in
  (r = S754_zero s \/ r = S754_infinity s \/
   exists p e3, r = S754_finite s p e3 /\
     (0 < m -> -1074 < Zdigits2 m + e -> Zdigits2 m + e <= Zdigits2 (Zpos p) + e3)) /\
  (0 < m -> -1074 < Zdigits2 m + e -> r <> S754_zero s) /\
  (e <= 971 -> Zdigits2 m + e <= 1023 -> r <> S754_infinity s).
Proof.
  intros Hm r.
  destruct (binary_round_aux_cases s m e l Hm) as (m2 & Hm2 & Hr).
  cbv zeta in Hm2, Hr. fold r in Hr.
  set (k1 := Z.max 0 (fexp prec emax (Zdigits2 m + e) - e)) in *.
  set (m1 := m / 2 ^ k1) in *.
  set (e1 := e + k1) in *.
  set (k2 := Z.max 0 (fexp prec emax (Zdigits2 m2 + e1) - e1)) in *.
  set (m3 := m2 / 2 ^ k2) in *.
  set (e3 := e1 + k2) in *.
  assert (Hk1 : 0 < 2 ^ k1) by (apply Z.pow_pos_nonneg; unfold k1; lia).
  assert (Hk2 : 0 < 2 ^ k2) by (apply Z.pow_pos_nonneg; unfold k2; lia).
  assert (Hm1 : 0 <= m1) by (apply Z.div_pos; assumption).
  assert (Hm2nn : 0 <= m2) by lia.
  assert (Hm3 : 0 <= m3) by (apply Z.div_pos; assumption).
  (* the magnitude is kept when the number is above the smallest subnormal *)
  assert (Hkeep : 0 < m -> -1074 < Zdigits2 m + e ->
                  0 < m3 /\ Zdigits2 m + e <= Zdigits2 m3 + e3).
  { intros Hpos Hmag.
    pose proof (Zdigits2_pos m Hpos) as Hd.
    assert (Hk1d : 0 <= k1 < Zdigits2 m)
      by (unfold k1; rewrite fexp64; lia).
    destruct (Zdigits2_div m k1 Hpos Hk1d) as [Hm1pos Hd1]. fold m1 in Hm1pos, Hd1.
    assert (Hd2 : Zdigits2 m1 <= Zdigits2 m2)
      by (apply Zdigits2_mono; lia).
    assert (Hm2pos : 0 < m2) by lia.
    pose proof (Zdigits2_pos m2 Hm2pos) as Hd2pos.
    assert (Hk2d : 0 <= k2 < Zdigits2 m2)
      by (unfold k2, e1; rewrite fexp64; lia).
    destruct (Zdigits2_div m2 k2 Hm2pos Hk2d) as [Hm3pos Hd3].
    fold m3 in Hm3pos, Hd3.
    split; [exact Hm3pos|]. unfold e3, e1. lia. }
  (* the exponent stays in range when the number is below the overflow threshold *)
  assert (Hrange : e <= 971 -> Zdigits2 m + e <= 1023 -> e3 <= 971).
  { intros He Hmag.
    assert (He1 : e1 <= 971) by (unfold e1, k1; rewrite fexp64; lia).
    assert (Hd2 : Zdigits2 m2 + e1 <= 1024).
    { assert (Hd21 : Zdigits2 m2 <= Zdigits2 m1 + 1).
      { destruct Hm2 as [->| ->]; [lia|apply Zdigits2_succ; exact Hm1]. }
      destruct (Z.eq_dec m 0) as [Hz|Hnz].
      - assert (m1 = 0) by (unfold m1; rewrite Hz; apply Z.div_0_l; lia).
        rewrite H in Hd21. simpl in Hd21. lia.
      - destruct (Z.lt_ge_cases k1 (Zdigits2 m)) as [Hlt|Hge].
        + destruct (Zdigits2_div m k1 ltac:(lia) ltac:(unfold k1 in *; lia))
            as [_ Hd1]. fold m1 in Hd1. unfold e1. lia.
        + assert (m1 = 0) by (apply Zdigits2_div_small; lia).
          rewrite H in Hd21. simpl in Hd21. lia. }
    unfold e3, k2. rewrite fexp64. lia. }
  split; [|split].
  - destruct m3 as [|p|p] eqn:Em3; [left; exact Hr| |lia].
    destruct (e3 <=? emax - prec); [|right; left; exact Hr].
    right. right. exists p, e3. split; [exact Hr|].
    intros Hpos Hmag. destruct (Hkeep Hpos Hmag) as [_ Hle]. exact Hle.
  - intros Hpos Hmag. destruct (Hkeep Hpos Hmag) as [Hm3pos _].
    rewrite Hr. destruct m3 as [|p|p]; try lia.
    destruct (e3 <=? emax - prec); discriminate.
  - intros He Hmag. rewrite Hr. specialize (Hrange He Hmag).
    destruct m3 as [|p|p]; try discriminate.
    destruct (Z.leb_spec e3 (emax - prec)) as [|Hgt]; [discriminate|].
    change (emax - prec) with 971 in Hgt. lia.
Qed.

End RoundAux.

Section Operations.

Lemma SFltb_zero_positive (x : spec_float) :
  SFltb (S754_zero false) x = true <-> SFpositive x = true.
Proof.
  destruct x as [s|s| |s m e]; simpl; try (destruct s; simpl);
    split; intros; try discriminate; reflexivity.
Qed.

Lemma SFpositive_not_zero (x : spec_float) :
  SFpositive x = true -> SFeqb x (S754_zero false) = false.
Proof.
  destruct x as [s|s| |s m e]; try destruct s; intros Hx;
    try discriminate Hx; reflexivity.
Qed.

Lemma valid_binary_bounds (s : bool) (m : positive) (e : Z) :
  SpecFloat.valid_binary prec emax (S754_finite s m e) = true ->
  -1074 <= e <= 971 /\ e + 53 >= Zdigits2 (Zpos m) + e.
Proof.
  unfold SpecFloat.valid_binary, bounded, canonical_mantissa.
  intros [Hcan Hmax]%andb_true_iff. apply Z.eqb_eq in Hcan. apply Z.leb_le in Hmax.
  rewrite fexp64 in Hcan. change (emax - prec) with 971 in Hmax.
  cbn [Zdigits2]. remember (Z.pos (digits2_pos m)) as d eqn:Hd. clear Hd. lia.
Qed.

Lemma Zdigits2_mul_pow2 (x k : Z) :
  0 < x -> 0 <= k -> Zdigits2 (x * 2 ^ k) = Zdigits2 x + k.
Proof.
  intros Hx Hk. pose proof (Zdigits2_bounds x Hx) as [Xlo Xhi].
  pose proof (Zdigits2_pos x Hx) as Hd.
  assert (Hp : 0 < 2 ^ k) by (apply Z.pow_pos_nonneg; lia).
  apply Zdigits2_unique; [|nia]. split.
  - replace (Zdigits2 x + k - 1) with (Zdigits2 x - 1 + k) by lia.
    rewrite Z.pow_add_r by lia. nia.
  - rewrite Z.pow_add_r by lia. nia.
Qed.

Lemma Zdigits2_upper (q t : Z) : 0 < q -> q < 2 ^ t -> Zdigits2 q <= t.
Proof.
  intros Hq Hlt. pose proof (Zdigits2_bounds q Hq) as [Qlo _].
  destruct (Z.le_gt_cases (Zdigits2 q) t) as [|Hgt]; [assumption|].
  assert (2 ^ t <= 2 ^ (Zdigits2 q - 1)).
  { destruct (Z.lt_ge_cases t 0) as [Hneg|Hnn].
    - rewrite (Z.pow_neg_r 2 t Hneg). apply Z.pow_nonneg. lia.
    - apply Z.pow_le_mono_r; lia. }
  lia.
Qed.

(** [shl_align] keeps the value and lowers the exponent to at most [ex']. *)
Lemma shl_align_spec (mx : positive) (ex ex' : Z) :
  let '(mz, ez) := shl_align mx ex ex' in
  ez = Z.min ex ex' /\ Zpos mz = Zpos mx * 2 ^ (ex - ez).
Proof.
  unfold shl_align. destruct (ex' - ex) as [|d|d] eqn:Hd.
  - split; [lia|]. rewrite Z.sub_diag. simpl. lia.
  - split; [lia|]. rewrite Z.sub_diag. simpl. lia.
  - split; [lia|].
    replace (ex - ex') with (Zpos d) by lia.
    clear Hd. induction d as [|d IH] using Pos.peano_ind.
    + simpl. lia.
    + rewrite Pos.iter_succ, Pos2Z.inj_succ, Z.pow_succ_r by lia.
      change (Zpos (Pos.iter xO mx d)~0) with (2 * Zpos (Pos.iter xO mx d)).
      rewrite IH. lia.
Qed.

(** A product of positive finite numbers whose magnitude is above the
    smallest subnormal is strictly positive. *)
Lemma SFmul_positive (mc m : positive) (ec e : Z) :
  -1074 < Zdigits2 (Zpos mc) + ec + e ->
  SFpositive (SFmul prec emax (S754_finite false mc ec) (S754_finite false m e)) = true.
Proof.
  intros Hmag. cbn [SFmul xorb].
  assert (Hd : Zdigits2 (Zpos mc) <= Zdigits2 (Zpos (mc * m))).
  { apply Zdigits2_mono. rewrite Pos2Z.inj_mul. nia. }
  destruct (binary_round_aux_result false (Zpos (mc * m)) (ec + e) loc_Exact
              ltac:(lia)) as (Hcases & Hnz & _).
  cbv zeta in Hcases, Hnz.
  specialize (Hnz ltac:(lia) ltac:(lia)).
  destruct Hcases as [H|[H|(p & e3 & H & _)]]; rewrite H in *;
    [contradiction|reflexivity|reflexivity].
Qed.

(** The quotient computed by the division. *)
Lemma SFdiv_core_binary_spec (m1 m2 : positive) (e1 e2 : Z) :
  let '(q, e', l) := SFdiv_core_binary prec emax (Zpos m1) e1 (Zpos m2) e2 in
  e' = Z.min (fexp prec emax (Zdigits2 (Zpos m1) + e1 - (Zdigits2 (Zpos m2) + e2)))
             (e1 - e2) /\
  q = (Zpos m1 * 2 ^ (e1 - e2 - e')) / Zpos m2.
Proof.
  unfold SFdiv_core_binary.
  set (e' := Z.min _ (e1 - e2)).
  set (s := e1 - e2 - e').
  assert (Hs : 0 <= s) by (unfold s, e'; lia).
  set (m' := match s with Zpos _ => Z.shiftl (Zpos m1) s | 0 => Zpos m1 | Zneg _ => 0 end).
  assert (Hm' : m' = Zpos m1 * 2 ^ s).
  { unfold m'. destruct s as [|p|p]; [simpl; lia| |lia].
    rewrite Z.shiftl_mul_pow2 by lia. reflexivity. }
  destruct (Z.div_eucl m' (Zpos m2)) as [q r] eqn:Hdiv.
  split; [reflexivity|].
  fold s. rewrite <- Hm'. unfold Z.div. rewrite Hdiv. reflexivity.
Qed.

(** A quotient of positive finite numbers is not negative and not a NaN;
    it is not an infinity when the dividend is not much larger than the
    divisor. *)
Lemma SFdiv_positive (m1 m2 : positive) (e1 e2 : Z) :
  let r := SFdiv prec emax (S754_finite false m1 e1) (S754_finite false m2 e2) in
  SFnonneg r = true /\
  (Zdigits2 (Zpos m1) + e1 <= Zdigits2 (Zpos m2) + e2 + 1022 ->
   r <> S754_infinity false).
Proof.
  cbn [SFdiv xorb].
  pose proof (SFdiv_core_binary_spec m1 m2 e1 e2) as Hcore.
  destruct (SFdiv_core_binary prec emax (Zpos m1) e1 (Zpos m2) e2)
    as [[q e'] l] eqn:Hdiv.
  destruct Hcore as [He' Hq].
  set (d1 := Zdigits2 (Zpos m1)) in *. set (d2 := Zdigits2 (Zpos m2)) in *.
  set (s := e1 - e2 - e') in *.
  assert (Hs : 0 <= s) by (unfold s; lia).
  assert (Hp : 0 < 2 ^ s) by (apply Z.pow_pos_nonneg; lia).
  assert (Hq0 : 0 <= q) by (rewrite Hq; apply Z.div_pos; nia).
  destruct (binary_round_aux_result false q e' l Hq0) as (Hcases & _ & Hfin).
  cbv zeta in Hcases, Hfin. split.
  - destruct Hcases as [H|[H|(p & e3 & H & _)]]; rewrite H; reflexivity.
  - intros Hmag. apply Hfin.
    + rewrite He', fexp64. lia.
    + destruct (Z.eq_dec q 0) as [->|Hqnz].
      * simpl. rewrite He', fexp64. lia.
      * assert (Hqpos : 0 < q) by lia.
        pose proof (Zdigits2_bounds (Zpos m1) ltac:(lia)) as [_ Hhi1].
        pose proof (Zdigits2_bounds (Zpos m2) ltac:(lia)) as [Hlo2 _].
        fold d1 in Hhi1. fold d2 in Hlo2.
        pose proof (Zdigits2_pos (Zpos m2) ltac:(lia)) as Hd2. fold d2 in Hd2.
        pose proof (Zdigits2_pos (Zpos m1) ltac:(lia)) as Hd1. fold d1 in Hd1.
        assert (Hqm : q * Zpos m2 <= Zpos m1 * 2 ^ s).
        { rewrite Hq, Z.mul_comm. apply Z.mul_div_le. lia. }
        assert (Hnum : Zpos m1 * 2 ^ s < 2 ^ (d1 + s))
          by (rewrite Z.pow_add_r by lia; nia).
        assert (Hup : Zdigits2 q <= d1 + s - d2 + 1).
        { apply Zdigits2_upper; [exact Hqpos|].
          destruct (Z.lt_ge_cases q (2 ^ (d1 + s - d2 + 1))) as [|Hge]; [assumption|].
          exfalso.
          destruct (Z.lt_ge_cases (d1 + s - d2 + 1) 0) as [Hneg|Hnn].
          - assert (2 ^ (d1 + s) <= 2 ^ (d2 - 1)) by (apply Z.pow_le_mono_r; lia).
            nia.
          - assert (Hprod : 2 ^ (d1 + s - d2 + 1) * 2 ^ (d2 - 1) = 2 ^ (d1 + s)).
            { rewrite <- Z.pow_add_r by lia. f_equal. lia. }
            assert (0 < 2 ^ (d2 - 1)) by (apply Z.pow_pos_nonneg; lia).
            nia. }
        unfold s in Hup. lia.
Qed.

(** A sum of a non-negative number and a positive finite number is
    strictly positive, and at least as large in magnitude as the latter. *)
Lemma SFadd_positive (x : spec_float) (my : positive) (ey : Z) :
  SFnonneg x = true ->
  -1074 <= ey ->
  let r := SFadd prec emax x (S754_finite false my ey) in
  SFpositive r = true /\
  (forall mr er, r = S754_finite false mr er ->
     Zdigits2 (Zpos my) + ey <= Zdigits2 (Zpos mr) + er).
Proof.
  intros Hx Hey. destruct x as [[]|[]| |[] mx ex]; try discriminate Hx; cbv zeta.
  - cbn [SFadd]. split; [reflexivity|]. intros mr er [= <- <-]. lia.
  - cbn [SFadd]. split; [reflexivity|]. intros mr er [=].
  - cbn [SFadd cond_Zopp].
    set (ez := Z.min ex ey).
    pose proof (shl_align_spec mx ex ez) as Hax.
    pose proof (shl_align_spec my ey ez) as Hay.
    destruct (shl_align mx ex ez) as [mx' ex'].
    destruct (shl_align my ey ez) as [my' ey'].
    cbn [fst]. destruct Hax as [Hex' Hmx']. destruct Hay as [Hey' Hmy'].
    change (Zpos mx' + Zpos my') with (Zpos (mx' + my')).
    cbn [binary_normalize]. unfold binary_round.
    set (sum := (mx' + my')%positive).
    pose proof (shl_align_spec sum ez
                  (fexp prec emax (Zpos (digits2_pos sum) + ez))) as Has.
    destruct (shl_align sum ez (fexp prec emax (Zpos (digits2_pos sum) + ez)))
      as [mz ez'].
    destruct Has as [Hez' Hmz].
    assert (Hmag_y' : Zdigits2 (Zpos my') + ez = Zdigits2 (Zpos my) + ey).
    { rewrite Hmy', Zdigits2_mul_pow2 by lia. lia. }
    assert (Hmag_sum : Zdigits2 (Zpos my') <= Zdigits2 (Zpos sum)).
    { apply Zdigits2_mono. unfold sum. lia. }
    assert (Hmag_z : Zdigits2 (Zpos mz) + ez' = Zdigits2 (Zpos sum) + ez).
    { rewrite Hmz, Zdigits2_mul_pow2 by lia. lia. }
    pose proof (Zdigits2_pos (Zpos my) ltac:(lia)) as Hdy.
    destruct (binary_round_aux_result false (Zpos mz) ez' loc_Exact ltac:(lia))
      as (Hcases & Hnz & _).
    cbv zeta in Hcases, Hnz.
    specialize (Hnz ltac:(lia) ltac:(lia)).
    destruct Hcases as [H|[H|(p & e3 & H & Hmag)]]; rewrite H in *.
    + contradiction.
    + split; [reflexivity|]. intros mr er [=].
    + split; [reflexivity|]. intros mr er [= <- <-].
      specialize (Hmag ltac:(lia) ltac:(lia)). lia.
Qed.

End Operations.

Section Validity.

Lemma Zdigits2_lower (q t : Z) : 0 <= t -> 2 ^ t <= q -> t + 1 <= Zdigits2 q.
Proof.
  intros Ht Hq.
  assert (Hpos : 0 < q) by (pose proof (Z.pow_pos_nonneg 2 t); lia).
  pose proof (Zdigits2_bounds q Hpos) as [_ Qhi].
  destruct (Z.le_gt_cases (t + 1) (Zdigits2 q)) as [|Hgt]; [assumption|].
  assert (2 ^ Zdigits2 q <= 2 ^ t)
    by (apply Z.pow_le_mono_r; [lia|lia]).
  lia.
Qed.

(** A mantissa whose exponent is not above its canonical exponent rounds
    to a valid binary64. *)
Lemma binary_round_aux_valid (s : bool) (m e : Z) (l : location) :
  0 < m ->
  e <= fexp prec emax (Zdigits2 m + e) ->
  SpecFloat.valid_binary prec emax (binary_round_aux prec emax s m e l) = true.
Proof.
  intros Hm He.
  destruct (binary_round_aux_cases s m e l ltac:(lia)) as (m2 & Hm2 & Hr).
  cbv zeta in Hm2, Hr. rewrite Hr. clear Hr.
  rewrite fexp64 in He.
  set (k1 := Z.max 0 (fexp prec emax (Zdigits2 m + e) - e)) in *.
  set (m1 := m / 2 ^ k1) in *.
  set (e1 := e + k1) in *.
  set (k2 := Z.max 0 (fexp prec emax (Zdigits2 m2 + e1) - e1)) in *.
  pose proof (Zdigits2_pos m Hm) as Hd.
  assert (Hk1 : k1 = Z.max (Zdigits2 m + e - 53) (-1074) - e)
    by (unfold k1; rewrite fexp64; lia).
  assert (Hk1pow : 0 < 2 ^ k1) by (apply Z.pow_pos_nonneg; lia).
  assert (Hm1 : 0 <= m1) by (apply Z.div_pos; lia).
  assert (Hm2nn : 0 <= m2) by lia.
  assert (Hk2 : k2 = Z.max 0 (Z.max (Zdigits2 m2 + e1 - 53) (-1074) - e1))
    by (unfold k2; rewrite fexp64; reflexivity).
  assert (Hd2 : Zdigits2 m1 <= Zdigits2 m2 <= Zdigits2 m1 + 1).
  { destruct Hm2 as [->| ->]; [lia|]. split; [|apply Zdigits2_succ; exact Hm1].
    destruct (Z.eq_dec m1 0) as [->|]; [simpl; lia|].
    apply Zdigits2_mono. lia. }
  (* the shape of the mantissa after the first shift *)
  assert (Hshape : (m1 = 0 /\ e1 = -1074) \/
                   (0 < m1 /\ Zdigits2 m1 <= 53 /\
                    (Zdigits2 m1 = 53 \/ e1 = -1074))).
  { destruct (Z.lt_ge_cases k1 (Zdigits2 m)) as [Hlt|Hge].
    - right. destruct (Zdigits2_div m k1 Hm ltac:(lia)) as [Hpos Hdig].
      fold m1 in Hpos, Hdig. unfold e1. lia.
    - left. split; [apply Zdigits2_div_small; lia|unfold e1; lia]. }
  assert (Hk2pow : 0 < 2 ^ k2) by (apply Z.pow_pos_nonneg; lia).
  destruct (m2 / 2 ^ k2) as [|p|p] eqn:Hm3; [reflexivity| |reflexivity].
  destruct (Z.leb_spec (e1 + k2) (emax - prec)) as [Hle|]; [|reflexivity].
  unfold SpecFloat.valid_binary, bounded, canonical_mantissa.
  apply andb_true_iff. split; [|apply Z.leb_le; exact Hle].
  apply Z.eqb_eq. rewrite fexp64.
  change (Zpos (digits2_pos p)) with (Zdigits2 (Zpos p)). rewrite <- Hm3.
  assert (Hm2pos : 0 < m2).
  { destruct (Z.eq_dec m2 0) as [Hz|]; [|lia].
    rewrite Hz, Z.div_0_l in Hm3 by lia. discriminate. }
  pose proof (Zdigits2_pos m2 Hm2pos) as Hd2pos.
  destruct (Z.lt_ge_cases k2 (Zdigits2 m2)) as [Hlt|Hge].
  - destruct (Zdigits2_div m2 k2 Hm2pos ltac:(lia)) as [_ Hdig].
    rewrite Hdig.
    destruct Hshape as [[Hz He1]|(Hpos & Hle53 & Hcan)].
    + rewrite Hz in Hd2. simpl in Hd2. lia.
    + lia.
  - rewrite (Zdigits2_div_small m2 k2) in Hm3 by lia. discriminate.
Qed.

Lemma binary_round_valid (s : bool) (m : positive) (e : Z) :
  SpecFloat.valid_binary prec emax (binary_round prec emax s m e) = true.
Proof.
  unfold binary_round.
  pose proof (shl_align_spec m e (fexp prec emax (Zpos (digits2_pos m) + e))) as Hal.
  destruct (shl_align m e (fexp prec emax (Zpos (digits2_pos m) + e))) as [mz ez].
  destruct Hal as [Hez Hmz].
  apply binary_round_aux_valid; [lia|].
  rewrite Hmz, Zdigits2_mul_pow2 by lia.
  change (Zpos (digits2_pos m)) with (Zdigits2 (Zpos m)) in Hez.
  replace (Zdigits2 (Zpos m) + (e - ez) + ez) with (Zdigits2 (Zpos m) + e) by lia.
  lia.
Qed.

(** A quotient of positive finite numbers is not zero when the dividend
    is not much smaller than the divisor. *)
Lemma SFdiv_nonzero (m1 m2 : positive) (e1 e2 : Z) :
  Zdigits2 (Zpos m2) + e2 <= Zdigits2 (Zpos m1) + e1 + 1073 ->
  SFdiv prec emax (S754_finite false m1 e1) (S754_finite false m2 e2)
  <> S754_zero false.
Proof.
  intros Hmag. cbn [SFdiv xorb].
  pose proof (SFdiv_core_binary_spec m1 m2 e1 e2) as Hcore.
  destruct (SFdiv_core_binary prec emax (Zpos m1) e1 (Zpos m2) e2)
    as [[q e'] l] eqn:Hdiv.
  destruct Hcore as [He' Hq].
  set (d1 := Zdigits2 (Zpos m1)) in *. set (d2 := Zdigits2 (Zpos m2)) in *.
  set (s := e1 - e2 - e') in *.
  rewrite fexp64 in He'.
  pose proof (Zdigits2_bounds (Zpos m1) ltac:(lia)) as [Hlo1 _].
  pose proof (Zdigits2_bounds (Zpos m2) ltac:(lia)) as [_ Hhi2].
  fold d1 in Hlo1. fold d2 in Hhi2.
  pose proof (Zdigits2_pos (Zpos m2) ltac:(lia)) as Hd2. fold d2 in Hd2.
  pose proof (Zdigits2_pos (Zpos m1) ltac:(lia)) as Hd1. fold d1 in Hd1.
  assert (Hs : 0 <= s) by (unfold s; lia).
  assert (Ht : 0 <= d1 - 1 + s - d2) by (unfold s; lia).
  assert (Hps : 0 < 2 ^ s) by (apply Z.pow_pos_nonneg; lia).
  assert (Hpt : 0 < 2 ^ (d1 - 1 + s - d2)) by (apply Z.pow_pos_nonneg; lia).
  assert (Hqlo : 2 ^ (d1 - 1 + s - d2) <= q).
  { rewrite Hq. apply Z.div_le_lower_bound; [lia|].
    assert (Hprod : 2 ^ (d1 - 1 + s - d2) * 2 ^ d2 = 2 ^ (d1 - 1) * 2 ^ s).
    { rewrite <- !Z.pow_add_r by lia. f_equal. lia. }
    nia. }
  pose proof (Zdigits2_lower q _ Ht Hqlo) as Hdq.
  destruct (binary_round_aux_result false q e' l ltac:(lia)) as (_ & Hnz & _).
  cbv zeta in Hnz. apply Hnz; [lia|]. unfold s in Hdq. lia.
Qed.

End Validity.

(** ** The synthesizer as CPython runs it *)

Section Binary64Synth.
Import Binary64 Binary64Facts.

Lemma ms_to_samples_binary64 (ms : float) :
  ms_to_samples ms = float_to_int (ms * 48000 / 1000)%float.
Proof. reflexivity. Qed.


(** The filter step from the state 0 on a zero sample. *)
Lemma float_zero_step (alpha : float) :
  finite64 alpha = true -> (0 + alpha * (0 - 0))%float = 0%float.
Proof.
  unfold finite64. intros Hfin. apply Prim2SF_inj.
  rewrite add_spec, mul_spec, sub_spec.
  change (Prim2SF 0%float) with (S754_zero false).
  destruct (Prim2SF alpha) as [s|s| |s m e]; try discriminate;
    destruct s; reflexivity.
Qed.


End Binary64Synth.

(** ** The filter coefficient and the delays in binary64 *)

Section Coefficient.
Import Binary64 Binary64Facts.

Lemma float_div_positive (x y : float) :
  SFpositive (Prim2SF y) = true -> float_div x y = Ok (x / y)%float.
Proof.
  intros Hy. unfold float_div. rewrite FloatAxioms.eqb_spec.
  change (Prim2SF 0%float) with (S754_zero false).
  rewrite (SFpositive_not_zero _ Hy). reflexivity.
Qed.

Lemma positive_Prim2SF (x : float) :
  PrimFloat.ltb 0%float x = true -> SFpositive (Prim2SF x) = true.
Proof.
  rewrite FloatAxioms.ltb_spec. change (Prim2SF 0%float) with (S754_zero false).
  apply SFltb_zero_positive.
Qed.

(** [2.0 * math.pi * cutoff_hz] is strictly positive for a positive cutoff. *)
Lemma two_pi_cutoff_positive (f : float) :
  PrimFloat.ltb 0%float f = true ->
  SFpositive (Prim2SF (2 * 3.141592653589793 * f)%float) = true.
Proof.
  intros Hf. apply positive_Prim2SF in Hf.
  rewrite mul_spec. pose proof (Prim2SF_valid f) as Hval.
  change (Prim2SF (2 * 3.141592653589793)%float)
    with (S754_finite false 7074237752028440 (-50)).
  unfold SF64mul.
  destruct (Prim2SF f) as [s|[]| |[] m e]; try discriminate Hf.
  - reflexivity.
  - apply valid_binary_bounds in Hval as [He _].
    apply SFmul_positive. change (Zdigits2 7074237752028440) with 53. lia.
Qed.

(** The coefficient of the filter, for a positive cutoff and a positive
    finite sampling period [dt]: it is defined, and it is [+0] or a
    positive finite number. *)
Lemma alpha_of_positive_cutoff (f dt : float) (md : positive) (ed : Z) :
  PrimFloat.ltb 0%float f = true ->
  Prim2SF dt = S754_finite false md ed ->
  exists rc alpha,
    float_div 1 (2 * 3.141592653589793 * f) = Ok rc /\
    float_div dt (rc + dt) = Ok alpha /\
    (Prim2SF alpha = S754_zero false \/
     exists m e, Prim2SF alpha = S754_finite false m e).
Proof.
  intros Hf Hdt.
  pose proof (two_pi_cutoff_positive f Hf) as Hy.
  set (y := (2 * 3.141592653589793 * f)%float) in *.
  exists (1 / y)%float. rewrite (float_div_positive 1 y Hy).
  (* rc is not negative *)
  assert (Hrc : SFnonneg (Prim2SF (1 / y)%float) = true).
  { rewrite div_spec. unfold SF64div.
    change (Prim2SF 1%float) with (S754_finite false 4503599627370496 (-52)).
    destruct (Prim2SF y) as [s|[]| |[] m e]; try discriminate Hy.
    - reflexivity.
    - apply SFdiv_positive. }
  (* rc + dt is strictly positive and at least as large as dt *)
  pose proof (Prim2SF_valid dt) as Hvdt. rewrite Hdt in Hvdt.
  apply valid_binary_bounds in Hvdt as [Hed _].
  destruct (SFadd_positive (Prim2SF (1 / y)%float) md ed Hrc ltac:(lia))
    as [Hx Hmag]. cbv zeta in Hx, Hmag.
  assert (Hsum : Prim2SF (1 / y + dt)%float
                 = SFadd prec emax (Prim2SF (1 / y)%float) (S754_finite false md ed))
    by (rewrite add_spec, Hdt; reflexivity).
  rewrite <- Hsum in Hx, Hmag.
  exists (dt / (1 / y + dt))%float.
  split; [reflexivity|]. split; [apply float_div_positive; exact Hx|].
  rewrite div_spec, Hdt. unfold SF64div.
  destruct (Prim2SF (1 / y + dt)%float) as [s|[]| |[] mx ex]; try discriminate Hx.
  - left. reflexivity.
  - destruct (SFdiv_positive md mx ed ex) as [Hnn Hfin]. cbv zeta in Hnn, Hfin.
    specialize (Hmag mx ex eq_refl). specialize (Hfin ltac:(lia)).
    destruct (SFdiv prec emax (S754_finite false md ed) (S754_finite false mx ex))
      as [[]|[]| |[] m e]; try discriminate Hnn; try contradiction; eauto.
Qed.

Lemma SFtrunc_nonneg (x : spec_float) :
  x = S754_zero false \/ x = S754_zero true \/ (exists m e, x = S754_finite false m e) ->
  exists d, SFtrunc x = Ok d /\ 0 <= d.
Proof.
  intros [->|[->|(m & e & ->)]].
  - exists 0. split; [reflexivity|lia].
  - exists 0. split; [reflexivity|lia].
  - cbn [SFtrunc]. eexists. split; [reflexivity|].
    destruct e as [|p|p].
    + rewrite Z.shiftl_0_r. lia.
    + apply Z.shiftl_nonneg. lia.
    + apply Z.shiftr_nonneg. lia.
Qed.

(** A delay that is not negative and whose product with the sample rate
    does not overflow converts to a sample index that is not negative. *)
Lemma nonneg_delay_index (ms : float) :
  PrimFloat.leb 0%float ms = true ->
  finite64 (ms * 48000)%float = true ->
  exists d, ms_to_samples ms = Ok d /\ 0 <= d.
Proof.
  intros Hms Hfin. rewrite ms_to_samples_binary64. unfold float_to_int.
  apply SFtrunc_nonneg.
  rewrite div_spec. unfold SF64div.
  change (Prim2SF 1000%float) with (S754_finite false 8796093022208000 (-43)).
  unfold finite64 in Hfin.
  pose proof (Prim2SF_valid (ms * 48000)%float) as Hval.
  assert (Hsign : forall m e, Prim2SF (ms * 48000)%float <> S754_finite true m e).
  { intros m e. rewrite mul_spec. unfold SF64mul.
    change (Prim2SF 48000%float) with (S754_finite false 6597069766656000 (-37)).
    rewrite FloatAxioms.leb_spec in Hms.
    change (Prim2SF 0%float) with (S754_zero false) in Hms.
    destruct (Prim2SF ms) as [s|[]| |[] mx ex]; try discriminate Hms;
      try discriminate.
    cbn [SFmul xorb].
    destruct (binary_round_aux_result false (Zpos (mx * 6597069766656000))
                (ex + -37) loc_Exact ltac:(lia)) as (Hc & _ & _).
    cbv zeta in Hc.
    destruct Hc as [H|[H|(p & e3 & H & _)]]; rewrite H; discriminate. }
  destruct (Prim2SF (ms * 48000)%float) as [[]|s| |[] m e];
    try discriminate Hfin; cbn [SFdiv xorb]; auto.
  - exfalso. exact (Hsign m e eq_refl).
  - apply valid_binary_bounds in Hval as [He Hd].
    destruct (SFdiv_positive m 8796093022208000 e (-43)) as [Hnn Hnoinf].
    cbv zeta in Hnn, Hnoinf. cbn [SFdiv xorb] in Hnn, Hnoinf.
    change (Zdigits2 8796093022208000) with 53 in Hnoinf.
    specialize (Hnoinf ltac:(lia)).
    destruct (let '(mz, ez, lz) :=
                SFdiv_core_binary prec emax (Zpos m) e 8796093022208000 (-43) in
              binary_round_aux prec emax false mz ez lz)
      as [[]|[]| |[] m' e']; try discriminate Hnn; try contradiction; eauto.
Qed.

(** [float(n)] of a positive [int] is a positive finite number, at least 1
    in magnitude. *)
Lemma float_of_int_positive (n : Z) (x : float) :
  0 < n -> float_of_int n = Ok x ->
  exists m e, Prim2SF x = S754_finite false m e /\ 1 <= Zdigits2 (Zpos m) + e.
Proof.
  intros Hn. unfold float_of_int.
  destruct n as [|p|p]; try lia. cbn [binary_normalize].
  pose proof (binary_round_valid false p 0) as Hval.
  assert (Hres : binary_round prec emax false p 0 = S754_infinity false \/
                 exists m e, binary_round prec emax false p 0 = S754_finite false m e /\
                             1 <= Zdigits2 (Zpos m) + e).
  { unfold binary_round.
    pose proof (shl_align_spec p 0 (fexp prec emax (Zpos (digits2_pos p) + 0))) as Hal.
    destruct (shl_align p 0 (fexp prec emax (Zpos (digits2_pos p) + 0))) as [mz ez].
    destruct Hal as [Hez Hmz].
    assert (Hmag : Zdigits2 (Zpos mz) + ez = Zdigits2 (Zpos p)).
    { rewrite Hmz, Zdigits2_mul_pow2 by lia. lia. }
    pose proof (Zdigits2_pos (Zpos p) ltac:(lia)) as Hd.
    destruct (binary_round_aux_result false (Zpos mz) ez loc_Exact ltac:(lia))
      as (Hc & Hnz & _). cbv zeta in Hc, Hnz.
    specialize (Hnz ltac:(lia) ltac:(lia)).
    destruct Hc as [H|[H|(m & e & H & Hm)]]; rewrite H in *.
    - contradiction.
    - left. reflexivity.
    - right. exists m, e. split; [reflexivity|].
      specialize (Hm ltac:(lia) ltac:(lia)). lia. }
  destruct Hres as [H|(m & e & H & Hmag)]; rewrite H in *; [discriminate|].
  intros [= <-]. exists m, e. split; [|exact Hmag].
  exact (Prim2SF_SF2Prim (S754_finite false m e) Hval).
Qed.

(** The sampling period [1.0 / sample_rate] of a positive sample rate is a
    positive finite number. *)
Lemma sampling_period_positive (f_s : Z) (sr : float) :
  0 < f_s -> float_of_int f_s = Ok sr ->
  float_div 1 sr = Ok (1 / sr)%float /\
  exists md ed, Prim2SF (1 / sr)%float = S754_finite false md ed.
Proof.
  intros Hfs Hsr.
  destruct (float_of_int_positive f_s sr Hfs Hsr) as (m & e & Hm & Hmag).
  pose proof (Prim2SF_valid sr) as Hval. rewrite Hm in Hval.
  apply valid_binary_bounds in Hval as [He Hd].
  split.
  - apply float_div_positive. rewrite Hm. reflexivity.
  - rewrite div_spec, Hm. unfold SF64div.
    change (Prim2SF 1%float) with (S754_finite false 4503599627370496 (-52)).
    destruct (SFdiv_positive 4503599627370496 m (-52) e) as [Hnn Hfin].
    cbv zeta in Hnn, Hfin.
    change (Zdigits2 4503599627370496) with 53 in Hfin.
    specialize (Hfin ltac:(lia)).
    pose proof (SFdiv_nonzero 4503599627370496 m (-52) e) as Hnz.
    change (Zdigits2 4503599627370496) with 53 in Hnz.
    specialize (Hnz ltac:(lia)).
    destruct (SFdiv prec emax (S754_finite false 4503599627370496 (-52))
                (S754_finite false m e)) as [[]|[]| |[] md ed];
      try discriminate Hnn; try contradiction; eauto.
Qed.

(** In binary64, every positive cutoff and every positive sample rate
    (that converts to a float) give a coefficient that is a number, and
    not the negative zero. *)
Lemma lpf_alpha_positive64 (f_c : float) (f_s : Z) (sr : float) :
  PrimFloat.ltb 0%float f_c = true ->
  0 < f_s -> float_of_int f_s = Ok sr ->
  exists rc dt alpha,
    float_div 1 (2 * 3.141592653589793 * f_c) = Ok rc /\
    float_div 1 sr = Ok dt /\
    float_div dt (rc + dt) = Ok alpha /\
    lpf_alpha f_c f_s = Ok alpha /\
    finite64 alpha = true /\ Prim2SF alpha <> S754_zero true.
Proof.
  intros Hf Hfs Hsr.
  destruct (sampling_period_positive f_s sr Hfs Hsr) as (Hdt & md & ed & Hmd).
  destruct (alpha_of_positive_cutoff f_c (1 / sr)%float md ed Hf Hmd)
    as (rc & alpha & Hrc & Halpha & Hnum).
  exists rc, (1 / sr)%float, alpha.
  split; [exact Hrc|]. split; [exact Hdt|]. split; [exact Halpha|]. split.
  - unfold lpf_alpha.
    change (div one (mul (mul two math_pi) f_c))
      with (float_div 1 (2 * 3.141592653589793 * f_c)).
    rewrite Hrc. cbn [mbind result_bind rbind].
    change (of_int f_s) with (float_of_int f_s). rewrite Hsr.
    cbn [mbind result_bind rbind].
    change (div one sr) with (float_div 1 sr). rewrite Hdt.
    cbn [mbind result_bind rbind]. exact Halpha.
  - unfold finite64.
    destruct Hnum as [H|(m & e & H)]; rewrite H; split; congruence.
Qed.

End Coefficient.

Section ZeroInput.
Context {F : Type} `{PyArith F}.

(** Zero samples keep a zero state when one step does. *)
Lemma lpf_recurrence_zero_fixed (alpha : F) (n : nat) :
  add zero (mul alpha (sub zero zero)) = zero ->
  lpf_recurrence alpha zero (replicate n zero) = replicate n zero.
Proof.
  intros Hstep. induction n as [|n IH]; [reflexivity|].
  cbn [replicate lpf_recurrence]. rewrite Hstep, IH. reflexivity.
Qed.

End ZeroInput.

(** *** The claims about the conversion, the filter gate and the impulse response *)




(** C5, refuted as stated: a negative cutoff is not positive, yet the
    cross channel is filtered. *)
Lemma negative_cutoff_is_filtered :
  PrimFloat.ltb 0%float (-1000)%float = false /\
  exists out plain,
    generate_channel 1%float [] true 0%float (Some (-1000)%float) = Ok out /\
    generate_channel 1%float [] true 0%float None = Ok plain /\
    plain !! 0%nat = Some 1%float /\
    out !! 0%nat = Some (-0.15061517408377156)%float /\
    out <> plain.
Proof.
  split; [reflexivity|].
  eexists. eexists. split; [vm_compute; reflexivity|].
  split; [vm_compute; reflexivity|].
  split; [reflexivity|]. split; [reflexivity|]. discriminate.
Qed.

(** C5, as amended: the filter is applied to the buffer exactly when
    [is_cross] is true and [cross_lpf_freq] is given and is not zero, be it
    positive, negative or a NaN; when [is_cross] is false, or the cutoff is
    absent or zero, the buffer is returned unfiltered. *)
Theorem filter_runs_iff_truthy (gain : float) (refl : list (float * float))
    (is_cross : bool) (cdm : float) (lpf : option float) :
  generate_channel gain refl is_cross cdm lpf
  = (buf ← generate_channel gain refl is_cross cdm None;
     if filter_runs is_cross lpf
     then apply_lpf_to_impulse buf (default 0%float lpf) SAMPLE_RATE
     else Ok buf) /\
  (filter_runs is_cross lpf = true <->
   is_cross = true /\
   exists f, lpf = Some f /\ forall s, Prim2SF f <> S754_zero s) /\
  (forall f, lpf = Some f -> is_cross = true ->
     PrimFloat.ltb 0%float f = true \/ PrimFloat.ltb f 0%float = true ->
     filter_runs is_cross lpf = true).
Proof.
  split; [|split].
  - rewrite generate_channel_filter. unfold filter_runs.
    destruct (generate_channel gain refl is_cross cdm None) as [buf|e];
      [|reflexivity].
    destruct lpf as [f|]; reflexivity.
  - unfold filter_runs. destruct lpf as [f|].
    + rewrite andb_true_iff. split.
      * intros [Hc Ht]. split; [exact Hc|]. exists f. split; [reflexivity|].
        intros s Hs.
        assert (Hf : Binary64.float_truthy f = false)
          by (apply Binary64Facts.float_truthy_false; eauto).
        simpl in Ht. congruence.
      * intros [Hc (f' & [= <-] & Hnz)]. split; [exact Hc|].
        simpl. destruct (Binary64.float_truthy f) eqn:Ht; [reflexivity|].
        apply Binary64Facts.float_truthy_false in Ht as [s Hs].
        destruct (Hnz s Hs).
    + split; [discriminate|]. intros [_ (f & [=] & _)].
  - intros f -> -> Hsign. simpl.
    destruct Hsign as [Hpos|Hneg].
    + exact (Binary64Facts.positive_truthy f Hpos).
    + exact (Binary64Facts.negative_truthy f Hneg).
Qed.



(** C6: for a cutoff [f_c > 0] and a sample rate [f_s > 0], the values
    [rc = 1/(2 pi f_c)], [dt = 1/f_s] and [alpha = dt/(rc+dt)] are defined,
    and the filter makes one pass over the whole buffer in increasing
    index order from the state 0: sample [n] becomes the state after [n+1]
    samples, where each state is [state + alpha * (x[n] - state)]. *)
Theorem apply_lpf_recurrence (samples : list float) (f_c : float) (f_s : Z)
    (sr : float) :
  PrimFloat.ltb 0%float f_c = true ->
  0 < f_s -> of_int f_s = Ok sr ->
  exists rc dt alpha : float,
    div one (mul (mul two math_pi) f_c) = Ok rc /\
    div one sr = Ok dt /\
    div dt (add rc dt) = Ok alpha /\
    apply_lpf_to_impulse samples f_c f_s = Ok (lpf_recurrence alpha zero samples) /\
    length (lpf_recurrence alpha zero samples) = length samples /\
    lpf_state alpha samples 0 = zero /\
    forall n x, samples !! n = Some x ->
      lpf_recurrence alpha zero samples !! n = Some (lpf_state alpha samples (S n)) /\
      lpf_state alpha samples (S n)
        = add (lpf_state alpha samples n)
              (mul alpha (sub x (lpf_state alpha samples n))).
Proof.
  intros Hf Hs Hsr.
  destruct (lpf_alpha_positive64 f_c f_s sr Hf Hs Hsr)
    as (rc & dt & alpha & Hrc & Hdt & Halpha & _).
  exists rc, dt, alpha.
  split; [exact Hrc|]. split; [exact Hdt|]. split; [exact Halpha|].
  exact (apply_lpf_by_recurrence samples f_c f_s rc sr dt alpha
           Hrc Hsr Hdt Halpha).
Qed.

(** C7, as amended: the synthesizer returns a buffer, raising nothing,
    exactly when every delay is placeable (its conversion to a sample
    index succeeds, with an index not below [-IR_SAMPLES]) and, where the
    filter runs, its coefficient is defined; this is so, in particular,
    when every delay (the cross delay, and each tap delay with the cross
    delay added) is not negative and its product with the sample rate does
    not overflow, and the cutoff is absent, zero or positive.  The buffer
    returned has [IR_SAMPLES] samples, and a main impulse or a tap whose
    index is not less than [IR_SAMPLES] leaves the buffer as it is. *)
Theorem generate_channel_total (gain : float) (refl : list (float * float))
    (is_cross : bool) (cdm : float) (lpf : option float) :
  ((exists out, generate_channel gain refl is_cross cdm lpf = Ok out) <->
   placeable (main_index is_cross cdm) /\
   Forall (fun tap => placeable (tap_index is_cross cdm tap.1)) refl /\
   (forall f, lpf = Some f -> filter_runs is_cross lpf = true ->
              exists alpha, lpf_alpha f SAMPLE_RATE = Ok alpha)) /\
  ((is_cross = true ->
      PrimFloat.leb 0%float cdm = true /\ finite64 (cdm * 48000)%float = true) ->
   Forall (fun tap : float * float =>
             let total := (tap.1 + (if is_cross then cdm else 0))%float in
             PrimFloat.leb 0%float total = true /\
             finite64 (total * 48000)%float = true) refl ->
   (forall f, lpf = Some f -> is_cross = true ->
              truthy f = false \/ PrimFloat.ltb 0%float f = true) ->
   exists out, generate_channel gain refl is_cross cdm lpf = Ok out) /\
  (forall out, generate_channel gain refl is_cross cdm lpf = Ok out ->
               length out = Z.to_nat IR_SAMPLES) /\
  (forall buf d,
     length buf = Z.to_nat IR_SAMPLES -> IR_SAMPLES <= d ->
     (main_index is_cross cdm = Ok d ->
        main_impulse gain is_cross cdm buf = Ok buf) /\
     (forall i dm g, tap_index is_cross cdm dm = Ok d ->
        reflection_step is_cross cdm i (dm, g) buf = Ok buf)).
Proof.
  split; [apply generate_channel_Ok_iff|]. split; [|split].
  - intros Hmain Htaps Hlpf. apply generate_channel_Ok_iff.
    assert (Hplace : forall ms : float,
              PrimFloat.leb 0%float ms = true ->
              finite64 (ms * 48000)%float = true ->
              placeable (ms_to_samples ms)).
    { intros ms Hms Hfin.
      destruct (nonneg_delay_index ms Hms Hfin) as (d & Hd & Hpos).
      exists d. split; [exact Hd|unfold IR_SAMPLES; lia]. }
    split; [|split].
    + unfold main_index. destruct is_cross.
      * destruct (Hmain eq_refl) as [Hms Hfin]. exact (Hplace cdm Hms Hfin).
      * exists 0. split; [reflexivity|unfold IR_SAMPLES; lia].
    + eapply Forall_impl; [exact Htaps|].
      intros [dm g] [Hms Hfin]. exact (Hplace _ Hms Hfin).
    + intros f -> Hrun. unfold filter_runs in Hrun.
      apply andb_true_iff in Hrun as [Hc Ht].
      destruct (Hlpf f eq_refl Hc) as [Hz|Hpos]; [congruence|].
      destruct (lpf_alpha_positive64 f SAMPLE_RATE 48000%float Hpos
                  ltac:(unfold SAMPLE_RATE; lia) eq_refl)
        as (_ & _ & alpha & _ & _ & _ & Halpha & _).
      exists alpha. exact Halpha.
  - intros out. apply generate_channel_length.
  - intros buf d. apply omitted_index_unchanged.
Qed.

(** ** The container encoder *)

Section Encoder.
Implicit Types (w : World) (f path : string) (content data : list byte).

Lemma pack_f_spec (x : float) :
  pack_f x = if packable x then Ok (f32_le x) else Raise OverflowError.
Proof.
  unfold pack_f, packable, f32_le.
  destruct (Prim2SF x) as [s|s| |s m e]; try reflexivity.
  destruct (SF_to_binary32 (S754_finite s m e)); reflexivity.
Qed.

Lemma pack_I_fits (n : Z) : 0 <= n < 2 ^ 32 -> pack_I n = Ok (le_bytes 4 n).
Proof.
  intros Hn. unfold pack_I.
  destruct (Z.leb_spec 0 n); [|lia].
  destruct (Z.ltb_spec n (2 ^ 32)); [reflexivity|lia].
Qed.

Lemma pack_H_fits (n : Z) : 0 <= n < 2 ^ 16 -> pack_H n = Ok (le_bytes 2 n).
Proof.
  intros Hn. unfold pack_H.
  destruct (Z.leb_spec 0 n); [|lia].
  destruct (Z.ltb_spec n (2 ^ 16)); [reflexivity|lia].
Qed.


Lemma open_wb_spec f w : open_wb f w = (set_file f [] w, Ok ()).
Proof. reflexivity. Qed.

Lemma f_write_spec f data content w :
  f_write f data (set_file f content w) = (set_file f (content ++ data) w, Ok ()).
Proof.
  unfold f_write, set_file. simpl.
  rewrite lookup_insert_eq, insert_insert_eq. reflexivity.
Qed.

Lemma bind_f_write {B} f data content (k : () -> IO B) w :
  (f_write f data ≫= k) (set_file f content w)
  = k () (set_file f (content ++ data) w).
Proof.
  unfold mbind, IO_bind, io_bind. rewrite f_write_spec. reflexivity.
Qed.

Lemma bind_lift_Ok {A B} (a : A) (k : A -> IO B) w :
  (lift (Ok a) ≫= k) w = k a w.
Proof. reflexivity. Qed.

(** The samples of one frame are appended in channel order. *)
Lemma write_frame_spec f channels t range content w :
  Forall (fun ch => exists c x, channels !! ch = Some c /\ c !! t = Some x /\
                                packable x = true) range ->
  write_frame f channels (Z.of_nat t) range (set_file f content w)
  = (set_file f (content ++
       flat_map (fun ch => f32_le (default 0%float
                                     (default [] (channels !! ch) !! t))) range) w,
     Ok ()).
Proof.
  revert content. induction range as [|ch range IH]; intros content Hall.
  - simpl. rewrite app_nil_r. reflexivity.
  - apply Forall_cons in Hall as [(c & x & Hc & Hx & Hp) Hall].
    cbn [write_frame flat_map].
    rewrite (py_getitem_nat channels ch c Hc), bind_lift_Ok.
    rewrite (py_getitem_nat c t x Hx), bind_lift_Ok.
    rewrite pack_f_spec, Hp, bind_lift_Ok.
    rewrite bind_f_write, (IH _ Hall).
    rewrite Hc. simpl. rewrite Hx. simpl. rewrite <- app_assoc. reflexivity.
Qed.

Lemma flat_map_seq_lookup {A B} (g : A -> list B) (d : A) (l : list A) :
  flat_map (fun i => g (default d (l !! i))) (seq 0 (length l)) = flat_map g l.
Proof.
  induction l as [|a l IH]; [reflexivity|].
  cbn [length seq flat_map]. f_equal.
  rewrite <- seq_shift, flat_map_concat_map, map_map,
    <- flat_map_concat_map.
  exact IH.
Qed.

(** The frames are appended in time order. *)
Lemma write_frames_spec f channels range content w :
  Forall (fun t => Forall (fun c => exists x, c !! t = Some x /\
                                              packable x = true) channels) range ->
  write_frames f channels (length channels) range (set_file f content w)
  = (set_file f (content ++ flat_map (frame_bytes channels) range) w, Ok ()).
Proof.
  revert content. induction range as [|t range IH]; intros content Hall.
  - simpl. rewrite app_nil_r. reflexivity.
  - apply Forall_cons in Hall as [Ht Hall].
    cbn [write_frames flat_map].
    unfold mbind at 1, IO_bind at 1, io_bind at 1.
    rewrite write_frame_spec.
    + rewrite (IH _ Hall).
      rewrite (flat_map_seq_lookup
                 (fun c => f32_le (default 0%float (c !! t))) [] channels).
      fold (frame_bytes channels t). rewrite <- app_assoc. reflexivity.
    + apply Forall_forall. intros ch Hch.
      apply elem_of_seq in Hch as [_ Hch]. simpl in Hch.
      destruct (lookup_lt_is_Some_2 channels ch Hch) as [c Hc].
      rewrite Forall_forall in Ht.
      destruct (Ht c (list_elem_of_lookup_2 _ _ _ Hc)) as (x & Hx & Hp).
      exists c, x. auto.
Qed.


End Encoder.

(** ** Reading the container back *)

Section Decoding.

Lemma le_bytes_length (k : nat) (n : Z) : length (le_bytes k n) = k.
Proof.
  revert n. induction k as [|k IH]; intros n; simpl; [reflexivity|].
  rewrite IH. reflexivity.
Qed.

Lemma f32_le_length (x : float) : length (f32_le x) = 4%nat.
Proof. apply le_bytes_length. Qed.

Lemma flat_map_length_const {A B} (g : A -> list B) (k : nat) (l : list A) :
  (forall y, length (g y) = k) -> length (flat_map g l) = (length l * k)%nat.
Proof.
  intros Hg. induction l as [|a l IH]; simpl; [reflexivity|].
  rewrite length_app, Hg, IH. reflexivity.
Qed.


Lemma frame_bytes_length (channels : list (list float)) (t : nat) :
  length (frame_bytes channels t) = (length channels * 4)%nat.
Proof.
  unfold frame_bytes. apply flat_map_length_const. intros c. apply f32_le_length.
Qed.

Lemma wav_layout_length (channels : list (list float)) (sample_rate : Z) :
  length (wav_layout channels sample_rate)
  = (44 + length (default [] (head channels)) * (length channels * 4))%nat.
Proof.
  unfold wav_layout, wav_payload, bytes_lit.
  rewrite !length_app, !le_bytes_length.
  rewrite (flat_map_length_const _ (length channels * 4));
    [|intros t; apply frame_bytes_length].
  rewrite length_seq. simpl. lia.
Qed.



End Decoding.

(** ** The claim about the byte layout *)



(** ** The generator *)


Section Generator.
Implicit Types (w : World) (name path : string) (p : Preset).



Lemma dict_get_unknown name :
  name <> "light" -> name <> "medium" -> name <> "heavy" ->
  dict_get PRESETS name = None.
Proof.
  intros Hl Hm Hh. unfold PRESETS. cbn [dict_get].
  rewrite !(proj2 (String.eqb_neq _ _)) by congruence.
  reflexivity.
Qed.

End Generator.


(** C8: a preset name other than light, medium and heavy makes
    [generate_ir] raise a [ValueError] whose message names the three
    presets, and the world is left as it was: no call of the synthesizer,
    no file created or changed, nothing printed. *)
Theorem unknown_preset_rejected (name path : string) (w : World) :
  name <> "light" -> name <> "medium" -> name <> "heavy" ->
  generate_ir name path w
  = (w, Raise (ValueError ("Unknown preset: " +:+ name +:+
                           ". Choose from: light, medium, heavy"))) /\
  calls (generate_ir name path w).1 = calls w /\
  files (generate_ir name path w).1 = files w /\
  stdout (generate_ir name path w).1 = stdout w.
Proof.
  intros Hl Hm Hh.
  assert (Hrun : generate_ir name path w
    = (w, Raise (ValueError ("Unknown preset: " +:+ name +:+
                             ". Choose from: light, medium, heavy")))).
  { unfold generate_ir. rewrite (dict_get_unknown name Hl Hm Hh). reflexivity. }
  rewrite Hrun. repeat split; reflexivity.
Qed.

(** ** The constant [IR_SAMPLES] and the presets, evaluated *)

(** The expression defining [IR_SAMPLES] evaluates to 3840, with binary64
    arithmetic and with exact arithmetic. *)
Lemma IR_SAMPLES_value :
  IR_SAMPLES_expr (F:=float) = Ok IR_SAMPLES /\
  IR_SAMPLES_expr (F:=Qc) = Ok IR_SAMPLES.
Proof. split; reflexivity. Qed.

(** The direct channel of the preset medium: the main impulse, the first
    reflection with positive polarity at index 72 and the second with
    negative polarity at index 182. *)
Example medium_direct_channel :
  exists out,
    generate_channel 1.0%float
      [(1.5, 0.12); (3.8, 0.09); (6.5, 0.06); (10.2, 0.04); (15.0, 0.025)]%float
      false 0%float None = Ok out /\
    length out = 3840%nat /\
    out !! 0%nat = Some 1.0%float /\
    out !! 72%nat = Some 0.12%float /\
    out !! 182%nat = Some (-0.089999999999999997)%float.
Proof.
  eexists. split; [vm_compute; reflexivity|]. repeat split; reflexivity.
Qed.

(** ** The theorems at concrete inputs *)



Lemma reflections_accumulate_witness :
  exists out,
    generate_channel 1%float [(2, 0.5); (2, 0.25)]%float false 0%float None
      = Ok out /\
    out !! 0%nat = Some 1%float /\
    out !! 96%nat = Some (0 + 0.5 * 1 + 0.25 * -1)%float.
Proof.
  assert (Htaps : Forall (fun tap : float * float =>
                            placeable (tap_index false 0%float tap.1))
                         [(2, 0.5); (2, 0.25)]%float).
  { repeat (apply Forall_cons; split;
            [exists 96; split; [reflexivity|unfold IR_SAMPLES; lia]|]).
    constructor. }
  destruct (reflections_accumulate 1%float [(2, 0.5); (2, 0.25)]%float
              false 0%float 0 eq_refl ltac:(unfold IR_SAMPLES; lia) Htaps)
    as (_ & _ & out & Hout & Hk).
  exists out. split; [exact Hout|]. split.
  - rewrite (Hk 0%nat) by (unfold IR_SAMPLES; lia). reflexivity.
  - rewrite (Hk 96%nat) by (unfold IR_SAMPLES; lia). reflexivity.
Defined.

Lemma apply_lpf_recurrence_witness :
  PrimFloat.ltb 0%float 3000%float = true /\
  of_int 48000 = Ok 48000%float /\
  apply_lpf_to_impulse [1; 0; 0]%float 3000%float 48000
  = Ok [0.28196980012346617; 0.2024628319417987; 0.14537442768673881]%float.
Proof.
  split; [reflexivity|]. split; [reflexivity|].
  destruct (apply_lpf_recurrence [1; 0; 0]%float 3000%float 48000 48000%float)
    as (rc & dt & alpha & Hrc & Hdt & Halpha & Hrun & _).
  - reflexivity.
  - lia.
  - reflexivity.
  - injection Hrc as <-. injection Hdt as <-. injection Halpha as <-.
    rewrite Hrun. reflexivity.
Defined.

(** C7, refuted as stated: a delay of -100 ms converts to the index -4800,
    below [-IR_SAMPLES], and the subscript raises [IndexError]; a delay of
    1e306 ms overflows to an infinity, and [int] raises [OverflowError]. *)
Lemma generate_channel_raises :
  ms_to_samples (-100)%float = Ok (-4800) /\
  generate_channel 1%float [] true (-100)%float None = Raise IndexError /\
  generate_channel 1%float [] true 1e306%float None = Raise OverflowError /\
  generate_channel 1%float [(1e306, 0.5)]%float false 0%float None
    = Raise OverflowError.
Proof. repeat split; reflexivity. Qed.

Lemma generate_channel_total_witness :
  PrimFloat.leb 0%float 0.3%float = true /\
  finite64 (0.3 * 48000)%float = true /\
  PrimFloat.ltb 0%float 2500%float = true /\
  exists out,
    generate_channel 0.25%float [(2.8, 0.06)]%float true 0.3%float
      (Some 2500%float) = Ok out /\
    length out = 3840%nat.
Proof.
  split; [reflexivity|]. split; [reflexivity|]. split; [reflexivity|].
  destruct (generate_channel_total 0.25%float [(2.8, 0.06)]%float true
              0.3%float (Some 2500%float)) as (_ & Hrun & Hlen & _).
  destruct Hrun as [out Hout].
  - intros _. split; reflexivity.
  - apply Forall_cons. split; [split; reflexivity|constructor].
  - intros f [= <-] _. right. reflexivity.
  - exists out. split; [exact Hout|exact (Hlen out Hout)].
Defined.

Lemma unknown_preset_rejected_witness :
  let w := mkWorld ∅ [] [] in
  generate_ir "ultra" "spatial_ultra.wav" w
  = (w, Raise (ValueError
                 "Unknown preset: ultra. Choose from: light, medium, heavy")).
Proof.
  cbv zeta.
  refine (proj1 (unknown_preset_rejected "ultra" "spatial_ultra.wav"
                   (mkWorld ∅ [] []) _ _ _)); discriminate.
Defined.


Lemma negative_index_wraps_witness :
  main_index true (-1)%float = Ok (-48) /\
  generate_channel 1%float [] true (-1)%float None
  = Ok (<[3792%nat := 1%float]> zeros).
Proof.
  split; [reflexivity|].
  refine (proj2 (proj1 (negative_index_wraps 1%float true (-1)%float 0
                          0%float 0%float zeros (-48) zeros_length _) _)).
  - unfold IR_SAMPLES. lia.
  - reflexivity.
Defined.

(** * Further properties *)

(** ** The low-pass filter: causality, delay, division by zero *)

Section FilterStructure.
Context {F : Type} `{PyArith F}.
Implicit Types (alpha state : F) (xs ys : list F).

(** The recurrence over [xs ++ ys] is the recurrence over [xs], continued
    over [ys] from the state it has reached. *)
Lemma lpf_recurrence_app alpha state xs ys :
  lpf_recurrence alpha state (xs ++ ys)
  = lpf_recurrence alpha state xs
    ++ lpf_recurrence alpha
         (fold_left (fun s x => add s (mul alpha (sub x s))) xs state) ys.
Proof.
  revert state. induction xs as [|x xs IH]; intros state; [reflexivity|].
  cbn [app lpf_recurrence fold_left]. cbv zeta. rewrite IH. reflexivity.
Qed.

Lemma lpf_recurrence_take alpha state xs k :
  lpf_recurrence alpha state (take k xs) = take k (lpf_recurrence alpha state xs).
Proof.
  revert state k. induction xs as [|x xs IH]; intros state [|k]; try reflexivity.
  cbn [take lpf_recurrence]. cbv zeta. rewrite IH. reflexivity.
Qed.

(** Zeros ahead of the input pass through unchanged when a zero input
    leaves the zero state. *)
Lemma lpf_recurrence_leading_zeros alpha k xs :
  add zero (mul alpha (sub zero zero)) = zero ->
  lpf_recurrence alpha zero (replicate k zero ++ xs)
  = replicate k zero ++ lpf_recurrence alpha zero xs.
Proof.
  intros Hz. rewrite lpf_recurrence_app.
  rewrite (lpf_recurrence_zero_fixed alpha k Hz). f_equal. f_equal.
  induction k as [|k IH]; [reflexivity|].
  cbn [replicate fold_left]. rewrite Hz. exact IH.
Qed.

End FilterStructure.

(** X1: The filter is causal: an output sample depends on the input up to its
    own index only.  Cutting the input after [k] samples cuts the output
    after [k] samples, and appending samples leaves the output so far as
    it is. *)
Theorem apply_lpf_causal {F : Type} `{PyArith F}
    (xs : list F) (cutoff_hz : F) (sample_rate : Z) (out : list F) :
  apply_lpf_to_impulse xs cutoff_hz sample_rate = Ok out ->
  (forall k, apply_lpf_to_impulse (take k xs) cutoff_hz sample_rate
             = Ok (take k out)) /\
  (forall ys, exists tail,
      length tail = length ys /\
      apply_lpf_to_impulse (xs ++ ys) cutoff_hz sample_rate = Ok (out ++ tail)).
Proof.
  rewrite apply_lpf_to_impulse_eq.
  intros (alpha & Halpha & [= <-])%rbind_Ok. split.
  - intros k. rewrite apply_lpf_to_impulse_eq, Halpha. simpl.
    rewrite lpf_recurrence_take. reflexivity.
  - intros ys. eexists. split; [|rewrite apply_lpf_to_impulse_eq, Halpha; simpl;
      rewrite lpf_recurrence_app; reflexivity].
    apply lpf_recurrence_length.
Qed.

(** X2: In binary64, with a positive cutoff, the filter commutes with a delay:
    [k] zeros ahead of the input give [k] zeros ahead of the output. *)
Theorem apply_lpf_delay (xs : list float) (f_c : float) (f_s : Z) (sr : float)
    (k : nat) :
  PrimFloat.ltb 0%float f_c = true -> 0 < f_s -> of_int f_s = Ok sr ->
  exists out,
    apply_lpf_to_impulse xs f_c f_s = Ok out /\
    apply_lpf_to_impulse (replicate k 0%float ++ xs) f_c f_s
    = Ok (replicate k 0%float ++ out).
Proof.
  intros Hf Hs Hsr.
  destruct (lpf_alpha_positive64 f_c f_s sr Hf Hs Hsr)
    as (_ & _ & alpha & _ & _ & _ & Halpha & Hfin & _).
  exists (lpf_recurrence alpha 0%float xs).
  rewrite !apply_lpf_to_impulse_eq, Halpha. simpl. split; [reflexivity|].
  f_equal.
  exact (lpf_recurrence_leading_zeros (F := float) alpha k xs
           (float_zero_step alpha Hfin)).
Qed.

Lemma rbind_Raise {A B} (r : result A) (k : A -> result B) (e : exn) :
  r ≫= k = Raise e <-> r = Raise e \/ exists a, r = Ok a /\ k a = Raise e.
Proof.
  destruct r as [a|e']; simpl; split.
  - intros Hk. right. exists a. auto.
  - intros [Hr|(a' & Ha & Hk)]; congruence.
  - intros [= ->]. left. reflexivity.
  - intros [[= ->]|(a' & Ha & _)]; [reflexivity|discriminate].
Qed.

Section FilterErrors.
Import Binary64.

Lemma float_div_raises (x y : float) (e : exn) :
  float_div x y = Raise e -> e = ZeroDivisionError.
Proof.
  unfold float_div. destruct (PrimFloat.eqb y 0%float); congruence.
Qed.

Lemma float_div_zero (x y : float) (s : bool) :
  Prim2SF y = S754_zero s -> float_div x y = Raise ZeroDivisionError.
Proof.
  intros Hy. unfold float_div. rewrite FloatAxioms.eqb_spec, Hy.
  destruct s; reflexivity.
Qed.

Lemma lpf_alpha_raises (f_c : float) (f_s : Z) (e : exn) :
  lpf_alpha f_c f_s = Raise e -> e = ZeroDivisionError \/ e = OverflowError.
Proof.
  unfold lpf_alpha.
  intros [Hrc|(rc & _ & [Hsr|(sr & _ & [Hdt|(dt & _ & Ha)]%rbind_Raise)
                         ]%rbind_Raise)]%rbind_Raise.
  - left. exact (float_div_raises _ _ _ Hrc).
  - right. cbn [of_int arith] in Hsr. unfold float_of_int in Hsr.
    destruct (binary_normalize prec emax f_s 0 false); congruence.
  - left. exact (float_div_raises _ _ _ Hdt).
  - left. exact (float_div_raises _ _ _ Ha).
Qed.

(** A cutoff that is a zero, or a sample rate of 0, is a division by zero. *)
Lemma lpf_alpha_zero_division (f_c : float) (f_s : Z) :
  (exists s, Prim2SF f_c = S754_zero s) \/ f_s = 0 ->
  lpf_alpha f_c f_s = Raise ZeroDivisionError.
Proof.
  intros Hz. unfold lpf_alpha.
  destruct (div one (mul (mul two math_pi) f_c)) as [rc|e] eqn:Hrc.
  2:{ cbn [div arith] in Hrc. rewrite (float_div_raises _ _ _ Hrc). reflexivity. }
  destruct Hz as [[s Hs]| ->].
  - cbn [div mul two math_pi arith] in Hrc.
    rewrite (float_div_zero _ _ s) in Hrc; [discriminate|].
    rewrite mul_spec, Hs. destruct s; reflexivity.
  - reflexivity.
Qed.

End FilterErrors.

(** X3: The filter raises exactly when the computation of its coefficient does,
    whatever the buffer, the empty one included, and never an
    [IndexError]: a [ZeroDivisionError] when the cutoff is a zero or the
    sample rate is 0, and otherwise only a [ZeroDivisionError] or, for a
    sample rate too large for a float, an [OverflowError].  A negative
    cutoff can make [rc + dt] zero: at 48000 Hz the cutoff
    -7639.4372684109767 Hz does, and the crossfeed channel raises. *)
Theorem apply_lpf_raises (samples : list float) (f_c : float) (f_s : Z) :
  (forall e, apply_lpf_to_impulse samples f_c f_s = Raise e <->
             lpf_alpha f_c f_s = Raise e) /\
  (forall e, apply_lpf_to_impulse samples f_c f_s = Raise e ->
             e = ZeroDivisionError \/ e = OverflowError) /\
  ((exists s, Prim2SF f_c = S754_zero s) \/ f_s = 0 ->
   apply_lpf_to_impulse samples f_c f_s = Raise ZeroDivisionError) /\
  PrimFloat.ltb (-7639.4372684109767)%float 0%float = true /\
  generate_channel 1%float [] true 0%float (Some (-7639.4372684109767)%float)
  = Raise ZeroDivisionError.
Proof.
  assert (Hiff : forall e, apply_lpf_to_impulse samples f_c f_s = Raise e <->
                           lpf_alpha f_c f_s = Raise e).
  { intros e. rewrite apply_lpf_to_impulse_eq.
    destruct (lpf_alpha f_c f_s); simpl; split; congruence. }
  split; [exact Hiff|]. split; [|split; [|split]].
  - intros e He. apply Hiff in He. exact (lpf_alpha_raises _ _ _ He).
  - intros Hz. apply Hiff. exact (lpf_alpha_zero_division _ _ Hz).
  - reflexivity.
  - vm_compute. reflexivity.
Qed.

(** ** The conversion of a delay to a sample index *)

Section SignSymmetry.
Import Binary64 Binary64Facts.

(** The sign given to a rounding only shows in the sign of its result. *)
Lemma binary_round_aux_opp (s : bool) (m e : Z) (l : location) :
  binary_round_aux prec emax (negb s) m e l
  = SFopp (binary_round_aux prec emax s m e l).
Proof.
  unfold binary_round_aux.
  destruct (shr_fexp prec emax m e l) as [mrs' e'].
  destruct (shr_fexp prec emax _ e' loc_Exact) as [mrs'' e''].
  destruct (shr_m mrs'') as [|p|p]; try reflexivity.
  destruct (e'' <=? emax - prec); reflexivity.
Qed.

Lemma SFmul_opp_l (x y : spec_float) :
  SFmul prec emax (SFopp x) y = SFopp (SFmul prec emax x y).
Proof.
  destruct x as [sx|sx| |sx mx ex], y as [sy|sy| |sy my ey];
    cbn [SFopp SFmul]; try reflexivity.
  all: try (rewrite negb_xorb_l; reflexivity).
  rewrite <- binary_round_aux_opp, negb_xorb_l. reflexivity.
Qed.

Lemma SFdiv_opp_l (x y : spec_float) :
  SFdiv prec emax (SFopp x) y = SFopp (SFdiv prec emax x y).
Proof.
  destruct x as [sx|sx| |sx mx ex], y as [sy|sy| |sy my ey];
    cbn [SFopp SFdiv]; try reflexivity.
  all: try (rewrite negb_xorb_l; reflexivity).
  destruct (SFdiv_core_binary prec emax (Zpos mx) ex (Zpos my) ey) as [[mz ez] lz].
  rewrite <- binary_round_aux_opp, negb_xorb_l. reflexivity.
Qed.

Lemma SFtrunc_opp (x : spec_float) :
  SFtrunc (SFopp x) = d ← SFtrunc x; Ok (- d).
Proof.
  destruct x as [s|s| |s m e]; try reflexivity.
  cbn [SFopp SFtrunc]. simpl. f_equal. destruct s; simpl; lia.
Qed.

Lemma SFopp_involutive (x : spec_float) : SFopp (SFopp x) = x.
Proof. destruct x as [s|s| |s m e]; simpl; rewrite ?negb_involutive; reflexivity. Qed.

Lemma float_opp_involutive (x : float) : (- - x)%float = x.
Proof. apply Prim2SF_inj. rewrite !opp_spec. apply SFopp_involutive. Qed.

(** The quotient [ms * 48000 / 1000] of the negated delay is the negated
    quotient. *)
Lemma scaled_delay_opp (ms : float) :
  Prim2SF (- ms * 48000 / 1000)%float = SFopp (Prim2SF (ms * 48000 / 1000)%float).
Proof.
  rewrite !div_spec, !mul_spec, opp_spec. unfold SF64div, SF64mul.
  rewrite SFmul_opp_l, SFdiv_opp_l. reflexivity.
Qed.

Lemma ms_to_samples_opp (ms : float) :
  ms_to_samples (- ms)%float = d ← ms_to_samples ms; Ok (- d).
Proof.
  rewrite !ms_to_samples_binary64. unfold float_to_int.
  rewrite scaled_delay_opp. apply SFtrunc_opp.
Qed.

(** A delay whose product with the sample rate is a number converts. *)
Lemma finite_delay_index (ms : float) :
  finite64 (ms * 48000)%float = true -> exists d, ms_to_samples ms = Ok d.
Proof.
  intros Hfin.
  destruct (PrimFloat.leb 0%float ms) eqn:Hle.
  { destruct (nonneg_delay_index ms Hle Hfin) as (d & Hd & _). eauto. }
  assert (Hneg : PrimFloat.leb 0%float (- ms)%float = true).
  { rewrite FloatAxioms.leb_spec in Hle |- *. rewrite opp_spec.
    change (Prim2SF 0%float) with (S754_zero false) in *.
    unfold finite64 in Hfin. rewrite mul_spec in Hfin. unfold SF64mul in Hfin.
    change (Prim2SF 48000%float) with (S754_finite false 6597069766656000 (-37))
      in Hfin.
    destruct (Prim2SF ms) as [s|[]| |[] m e]; try discriminate Hle;
      try discriminate Hfin; reflexivity. }
  assert (Hfin' : finite64 (- ms * 48000)%float = true).
  { unfold finite64 in *. rewrite mul_spec, opp_spec. unfold SF64mul.
    rewrite SFmul_opp_l. rewrite mul_spec in Hfin. unfold SF64mul in Hfin.
    destruct (SFmul prec emax (Prim2SF ms) (Prim2SF 48000%float));
      try discriminate Hfin; reflexivity. }
  destruct (nonneg_delay_index (- ms)%float Hneg Hfin') as (d & Hd & _).
  exists (- d). rewrite <- (float_opp_involutive ms), ms_to_samples_opp, Hd.
  reflexivity.
Qed.

(** A product that is not a number: the quotient is an infinity or a NaN,
    and [int] raises. *)
Lemma infinite_delay_raises (ms : float) :
  finite64 (ms * 48000)%float = false ->
  (exists s, Prim2SF (ms * 48000)%float = S754_infinity s /\
             ms_to_samples ms = Raise OverflowError) \/
  (Prim2SF (ms * 48000)%float = S754_nan /\
   ms_to_samples ms = Raise (ValueError "cannot convert float NaN to integer")).
Proof.
  intros Hfin. rewrite ms_to_samples_binary64. unfold float_to_int.
  rewrite div_spec. unfold SF64div, finite64 in *.
  change (Prim2SF 1000%float) with (S754_finite false 8796093022208000 (-43)).
  destruct (Prim2SF (ms * 48000)%float) as [s|s| |s m e];
    try discriminate Hfin.
  - left. exists s. split; reflexivity.
  - right. split; reflexivity.
Qed.

End SignSymmetry.

(** X4: [ms_to_samples] returns an index exactly when the product
    [ms * 48000] is a number; an infinite product (an infinite delay, or a
    finite one beyond about 3.7e303 ms in magnitude) raises
    [OverflowError], a NaN raises [ValueError].  The conversion is odd: the
    negated delay gives the negated index, since [int] truncates toward
    zero. *)
Theorem ms_to_samples_defined (ms : float) :
  ((exists d, ms_to_samples ms = Ok d) <-> finite64 (ms * 48000)%float = true) /\
  (forall e, ms_to_samples ms = Raise e ->
     (e = OverflowError /\ exists s, Prim2SF (ms * 48000)%float = S754_infinity s) \/
     (e = ValueError "cannot convert float NaN to integer" /\
      Prim2SF (ms * 48000)%float = S754_nan)) /\
  (forall d, ms_to_samples ms = Ok d -> ms_to_samples (- ms)%float = Ok (- d)) /\
  (forall e, ms_to_samples ms = Raise e -> ms_to_samples (- ms)%float = Raise e).
Proof.
  split; [|split; [|split]].
  - split; [|apply finite_delay_index].
    intros [d Hd]. destruct (finite64 (ms * 48000)%float) eqn:Hfin; [reflexivity|].
    destruct (infinite_delay_raises ms Hfin) as [(s & _ & He)|[_ He]]; congruence.
  - intros e He. destruct (finite64 (ms * 48000)%float) eqn:Hfin.
    + destruct (finite_delay_index ms Hfin) as [d Hd]. congruence.
    + destruct (infinite_delay_raises ms Hfin) as [(s & Hs & He')|[Hn He']].
      * left. split; [congruence|eauto].
      * right. split; [congruence|exact Hn].
  - intros d Hd. rewrite ms_to_samples_opp, Hd. reflexivity.
  - intros e He. rewrite ms_to_samples_opp, He. reflexivity.
Qed.

Section WholeMilliseconds.

(** The conversion of every whole number of milliseconds from -80 to 80,
    checked one by one. *)
Lemma whole_ms_checked :
  forallb (fun k => match of_int (F := float) k with
                    | Ok x => match ms_to_samples x with
                              | Ok d => d =? 48 * k
                              | Raise _ => false
                              end
                    | Raise _ => false
                    end) (seqZ (-80) 161) = true.
Proof. vm_compute. reflexivity. Qed.

End WholeMilliseconds.

(** X5: A delay of a whole number [k] of milliseconds, from -80 to 80, converts
    without any rounding error: [ms_to_samples(float(k))] is [48 * k].  So
    79 ms is the last whole delay inside the buffer, and 80 ms converts to
    [IR_SAMPLES] itself, which the bounds test drops. *)
Theorem whole_ms_to_samples (k : Z) (x : float) :
  - 80 <= k <= 80 -> of_int k = Ok x ->
  ms_to_samples x = Ok (48 * k) /\
  (position (48 * k) = None <-> k = 80).
Proof.
  intros Hk Hx. split.
  - pose proof whole_ms_checked as Hall.
    rewrite forallb_forall in Hall.
    specialize (Hall k). rewrite Hx in Hall.
    assert (Hin : In k (seqZ (-80) 161))
      by (apply list_elem_of_In, elem_of_seqZ; lia).
    destruct (ms_to_samples x) as [d|e].
    + f_equal. apply Z.eqb_eq. exact (Hall Hin).
    + discriminate (Hall Hin).
  - destruct (Z.eq_dec k 80) as [->|Hne].
    { split; [reflexivity|]. intros _. apply position_omitted.
      unfold IR_SAMPLES. lia. }
    split; [|contradiction].
    destruct (Z.le_gt_cases 0 k) as [Hpos|Hneg].
    + rewrite position_in_range by (unfold IR_SAMPLES; lia). discriminate.
    + rewrite position_negative by (unfold IR_SAMPLES; lia). discriminate.
Qed.

(** ** The synthesized channel: where it can be non-zero *)

Section Support.
Context {F : Type} `{PyArith F}.
Implicit Types (d : Z) (k i : nat) (gain cdm : F) (refl : list (F * F)).

(** No tap on position [k]: nothing is added there. *)
Lemma contributions_nil is_cross cdm k refl : forall i,
  Forall (fun tap => forall d, tap_index is_cross cdm tap.1 = Ok d ->
                               position d <> Some k) refl ->
  contributions is_cross cdm k i refl = [].
Proof.
  induction refl as [|[dm g] refl IH]; intros i Hall; [reflexivity|].
  apply Forall_cons in Hall as [Htap Hall]. cbn [contributions].
  rewrite (IH _ Hall), app_nil_r.
  destruct (tap_index is_cross cdm dm) as [d|e] eqn:Hd; [|reflexivity].
  destruct (decide (position d = Some k)) as [Hk|_]; [|reflexivity].
  exfalso. exact (Htap d Hd Hk).
Qed.

Lemma omap_length_le {A B} (g : A -> option B) (l : list A) :
  (length (omap g l) <= length l)%nat.
Proof.
  induction l as [|a l IH]; [reflexivity|].
  cbn [omap list_omap]. destruct (g a); simpl; lia.
Qed.

Lemma written_positions_length is_cross cdm refl :
  (length (written_positions is_cross cdm refl) <= 1 + length refl)%nat.
Proof.
  unfold written_positions.
  etransitivity; [apply omap_length_le|]. cbn [length]. rewrite length_fmap. lia.
Qed.

Lemma not_written_main is_cross cdm refl d0 k :
  main_index is_cross cdm = Ok d0 ->
  k ∉ written_positions is_cross cdm refl -> position d0 <> Some k.
Proof.
  intros Hd0 Hk Hpos. apply Hk. unfold written_positions.
  apply list_elem_of_omap. exists (Ok d0). split; [|exact Hpos].
  rewrite Hd0. apply list_elem_of_here.
Qed.

Lemma not_written_taps is_cross cdm refl k :
  k ∉ written_positions is_cross cdm refl ->
  Forall (fun tap => forall d, tap_index is_cross cdm tap.1 = Ok d ->
                               position d <> Some k) refl.
Proof.
  intros Hk. apply Forall_forall. intros tap Htap d Hd Hpos. apply Hk.
  unfold written_positions. apply list_elem_of_omap.
  exists (Ok d). split; [|exact Hpos].
  apply list_elem_of_further. rewrite <- Hd.
  apply (list_elem_of_fmap_2 (fun tap => tap_index is_cross cdm tap.1)).
  exact Htap.
Qed.

(** The samples of an unfiltered channel at a position no index falls on. *)
Lemma unfiltered_zero gain refl is_cross cdm d0 out k :
  main_index is_cross cdm = Ok d0 ->
  generate_channel gain refl is_cross cdm None = Ok out ->
  (k < Z.to_nat IR_SAMPLES)%nat ->
  position d0 <> Some k ->
  Forall (fun tap => forall d, tap_index is_cross cdm tap.1 = Ok d ->
                               position d <> Some k) refl ->
  out !! k = Some zero.
Proof.
  intros Hd0 Hout Hk Hmain Htaps.
  destruct (proj1 (generate_channel_Ok_iff gain refl is_cross cdm None)
              (ex_intro _ out Hout)) as ((d & Hd & Hge) & Hall & _).
  assert (d = d0) as -> by congruence.
  destruct (generate_channel_unfiltered gain refl is_cross cdm d0 Hd0 Hge Hall)
    as (out' & Hout' & _ & Hlook).
  assert (out' = out) as -> by congruence.
  rewrite (Hlook k Hk), (contributions_nil _ _ _ _ _ Htaps).
  destruct (decide (position d0 = Some k)); [contradiction|reflexivity].
Qed.

End Support.

(** X6: An unfiltered channel is zero wherever neither the main impulse nor a
    tap is written: at most [1 + len(reflections)] of its [IR_SAMPLES]
    samples are written to, and every other sample is the [0.0] the buffer
    was allocated with. *)
Theorem generate_channel_support {F : Type} `{PyArith F}
    (gain : F) (refl : list (F * F)) (is_cross : bool) (cdm : F)
    (out : list F) :
  generate_channel gain refl is_cross cdm None = Ok out ->
  (length (written_positions is_cross cdm refl) <= 1 + length refl)%nat /\
  forall k, (k < Z.to_nat IR_SAMPLES)%nat ->
    k ∉ written_positions is_cross cdm refl ->
    out !! k = Some zero.
Proof.
  intros Hout. split; [apply written_positions_length|].
  intros k Hk Hnot.
  destruct (proj1 (generate_channel_Ok_iff gain refl is_cross cdm None)
              (ex_intro _ out Hout)) as ((d0 & Hd0 & _) & _ & _).
  apply (unfiltered_zero gain refl is_cross cdm d0 out k Hd0 Hout Hk).
  - exact (not_written_main _ _ _ _ _ Hd0 Hnot).
  - exact (not_written_taps _ _ _ _ Hnot).
Qed.

Section PreDelay.
Import Binary64.

(** A list that starts with [n] zeros. *)
Lemma leading_zeros_split (l : list float) (n : nat) :
  (n <= length l)%nat ->
  (forall k, (k < n)%nat -> l !! k = Some 0%float) ->
  l = replicate n 0%float ++ drop n l.
Proof.
  intros Hn Hz. rewrite <- (take_drop n l) at 1. f_equal.
  apply list_eq. intros k.
  destruct (Nat.lt_ge_cases k n) as [Hk|Hk].
  - rewrite lookup_take_lt by exact Hk.
    rewrite (Hz k Hk). symmetry. apply lookup_replicate_2. exact Hk.
  - rewrite lookup_take_ge by exact Hk.
    symmetry. apply lookup_replicate_None. exact Hk.
Qed.

End PreDelay.

(** X7: The crossfeed channel is silent before its delay: when the cross delay
    converts to the index [d0 >= 0] and no tap falls before it, every
    sample before [d0] is exactly [0.0], also after the low-pass filter
    with a positive cutoff has run over the buffer. *)
Theorem cross_channel_silent_before_delay (gain : float)
    (refl : list (float * float)) (cdm f_c : float) (d0 : Z) :
  ms_to_samples cdm = Ok d0 -> 0 <= d0 ->
  Forall (fun tap => exists d, tap_index true cdm tap.1 = Ok d /\ d0 <= d) refl ->
  PrimFloat.ltb 0%float f_c = true ->
  exists out,
    generate_channel gain refl true cdm (Some f_c) = Ok out /\
    length out = Z.to_nat IR_SAMPLES /\
    forall k, (k < Z.to_nat IR_SAMPLES)%nat -> Z.of_nat k < d0 ->
      out !! k = Some 0%float.
Proof.
  intros Hd0 Hge Htaps Hf.
  assert (Hplace : Forall (fun tap => placeable (tap_index true cdm tap.1)) refl).
  { eapply Forall_impl; [exact Htaps|]. intros tap (d & Hd & Hle).
    exists d. split; [exact Hd|unfold IR_SAMPLES; lia]. }
  destruct (generate_channel_unfiltered gain refl true cdm d0 Hd0
              ltac:(unfold IR_SAMPLES; lia) Hplace) as (buf & Hbuf & Hlen & _).
  set (n := Nat.min (Z.to_nat d0) (Z.to_nat IR_SAMPLES)).
  assert (Hlater : forall d k, d0 <= d -> (k < n)%nat -> position d <> Some k).
  { intros d k Hd Hk. unfold position.
    destruct (Z.leb_spec IR_SAMPLES d); [discriminate|].
    destruct (Z.leb_spec 0 d); [|lia]. intros [= Heq]. lia. }
  assert (Hzero : forall k, (k < n)%nat -> buf !! k = Some 0%float).
  { intros k Hk.
    apply (unfiltered_zero gain refl true cdm d0 buf k Hd0 Hbuf); [lia| |].
    - apply Hlater; [lia|exact Hk].
    - eapply Forall_impl; [exact Htaps|]. intros tap (d & Hd & Hle) d' Hd'.
      assert (d' = d) as -> by congruence. apply Hlater; assumption. }
  destruct (lpf_alpha_positive64 f_c SAMPLE_RATE 48000%float Hf
              ltac:(unfold SAMPLE_RATE; lia) eq_refl)
    as (_ & _ & alpha & _ & _ & _ & Halpha & Hfin & _).
  exists (lpf_recurrence alpha 0%float buf).
  split; [|split].
  - rewrite generate_channel_filter, Hbuf. simpl.
    rewrite (Binary64Facts.positive_truthy f_c Hf).
    rewrite apply_lpf_to_impulse_eq, Halpha. reflexivity.
  - rewrite lpf_recurrence_length. exact Hlen.
  - intros k Hk Hkd.
    rewrite (leading_zeros_split buf n ltac:(lia) Hzero).
    pose proof (lpf_recurrence_leading_zeros (H := Binary64.arith) alpha n
                  (drop n buf) (float_zero_step alpha Hfin)) as Hshift.
    cbn [zero Binary64.arith] in Hshift. rewrite Hshift.
    rewrite lookup_app_l by (rewrite length_replicate; lia).
    apply lookup_replicate_2. lia.
Qed.

Section LoneTaps.
Context {F : Type} `{PyArith F}.
Implicit Types (d : Z) (k i j : nat) (gain cdm : F) (refl : list (F * F)).

(** A tap that is alone on its position is the only contribution there. *)
Lemma contributions_single is_cross cdm k refl : forall start j dm g d,
  refl !! j = Some (dm, g) ->
  tap_index is_cross cdm dm = Ok d ->
  position d = Some k ->
  (forall j' tap d', j' <> j -> refl !! j' = Some tap ->
     tap_index is_cross cdm tap.1 = Ok d' -> position d' <> Some k) ->
  contributions is_cross cdm k start refl = [mul g (polarity (start + j))].
Proof.
  induction refl as [|[dm0 g0] refl IH]; intros start j dm g d Hj Hd Hk Hothers;
    [discriminate|].
  cbn [contributions]. destruct j as [|j]; simpl in Hj.
  - injection Hj as -> ->. rewrite Hd.
    destruct (decide (position d = Some k)) as [_|Hne]; [|contradiction].
    rewrite Nat.add_0_r. rewrite (contributions_nil is_cross cdm k refl (S start));
      [reflexivity|].
    apply Forall_lookup. intros j' tap Hj' d' Hd'.
    exact (Hothers (S j') tap d' ltac:(lia) Hj' Hd').
  - rewrite (IH (S start) j dm g d Hj Hd Hk).
    + replace (S start + j)%nat with (start + S j)%nat by lia.
      destruct (tap_index is_cross cdm dm0) as [d1|e] eqn:Hd1; [|reflexivity].
      destruct (decide (position d1 = Some k)) as [Hk1|_]; [|reflexivity].
      exfalso. exact (Hothers 0%nat (dm0, g0) d1 ltac:(lia) eq_refl Hd1 Hk1).
    + intros j' tap d' Hne Hj' Hd'.
      exact (Hothers (S j') tap d' ltac:(lia) Hj' Hd').
Qed.

End LoneTaps.

(** X8: Where nothing coincides, nothing is mixed: in an unfiltered channel the
    sample at the position of the main impulse is the gain itself when no
    tap falls there, and the sample at the position of a tap no other index
    falls on is [0.0 + ref_gain * polarity], the tap alone. *)
Theorem lone_impulses_stand_alone {F : Type} `{PyArith F}
    (gain : F) (refl : list (F * F)) (is_cross : bool) (cdm : F)
    (out : list F) (d0 : Z) :
  generate_channel gain refl is_cross cdm None = Ok out ->
  main_index is_cross cdm = Ok d0 ->
  (forall k, position d0 = Some k ->
     (forall j tap d, refl !! j = Some tap ->
        tap_index is_cross cdm tap.1 = Ok d -> position d <> Some k) ->
     out !! k = Some gain) /\
  (forall i dm g d k,
     refl !! i = Some (dm, g) ->
     tap_index is_cross cdm dm = Ok d ->
     position d = Some k ->
     position d0 <> Some k ->
     (forall j tap d', j <> i -> refl !! j = Some tap ->
        tap_index is_cross cdm tap.1 = Ok d' -> position d' <> Some k) ->
     out !! k = Some (add zero (mul g (polarity i)))).
Proof.
  intros Hout Hd0.
  destruct (proj1 (generate_channel_Ok_iff gain refl is_cross cdm None)
              (ex_intro _ out Hout)) as ((d & Hd & Hge) & Hall & _).
  assert (d = d0) as -> by congruence.
  destruct (generate_channel_unfiltered gain refl is_cross cdm d0 Hd0 Hge Hall)
    as (out' & Hout' & _ & Hlook).
  assert (out' = out) as -> by congruence.
  split.
  - intros k Hk Hnone.
    rewrite (Hlook k (position_lt _ _ Hk)).
    rewrite (contributions_nil is_cross cdm k refl 0).
    + destruct (decide (position d0 = Some k)); [reflexivity|contradiction].
    + apply Forall_lookup. intros j tap Hj d Hd'. exact (Hnone j tap d Hj Hd').
  - intros i dm g d k Hi Hdi Hk Hmain Hothers.
    rewrite (Hlook k (position_lt _ _ Hk)).
    rewrite (contributions_single is_cross cdm k refl 0 i dm g d Hi Hdi Hk Hothers).
    destruct (decide (position d0 = Some k)); [contradiction|reflexivity].
Qed.

(** ** The encoder on every input *)

Section EncoderStructure.
Implicit Types (w : World) (path f : string) (data content : list byte).









(** The encoder returns when the header fields fit and every sample it
    reads is there and can be packed: the first [num_samples] samples of
    each channel. *)
Lemma write_wav_returns path channels sample_rate w :
  channels <> [] ->
  header_fits channels sample_rate ->
  Forall (fun c => forall t, (t < length (default [] (head channels)))%nat ->
                     exists x, c !! t = Some x /\ packable x = true) channels ->
  write_wav path channels sample_rate w
  = (set_file path (wav_layout channels sample_rate) w, Ok ()).
Proof.
  intros Hne (Hsr & Hrate & Halign & Hsize) Hread.
  destruct channels as [|c0 rest] eqn:Hch; [contradiction|].
  rewrite <- Hch in *.
  assert (Hhead : default [] (head channels) = c0) by (rewrite Hch; reflexivity).
  rewrite Hhead in *.
  assert (Hn : 1 <= Z.of_nat (length channels)) by (rewrite Hch; simpl; lia).
  unfold write_wav. cbv zeta.
  assert (Hget : py_getitem channels 0 = Ok c0)
    by (apply (py_getitem_nat channels 0%nat c0); rewrite Hch; reflexivity).
  rewrite Hget, bind_lift_Ok.
  change (32 `div` 8) with 4.
  set (n := Z.of_nat (length channels)) in *.
  set (ns := Z.of_nat (length c0)) in *.
  replace (ns * (n * 4)) with (ns * n * 4) by lia.
  unfold mbind at 1, IO_bind at 1, io_bind at 1. rewrite open_wb_spec.
  rewrite bind_f_write.
  rewrite (pack_I_fits (36 + ns * n * 4)), bind_lift_Ok, bind_f_write by lia.
  rewrite bind_f_write. rewrite bind_f_write.
  rewrite (pack_I_fits 16), bind_lift_Ok, bind_f_write by lia.
  rewrite (pack_H_fits 3), bind_lift_Ok, bind_f_write by lia.
  rewrite (pack_H_fits n), bind_lift_Ok, bind_f_write by lia.
  rewrite (pack_I_fits sample_rate), bind_lift_Ok, bind_f_write by nia.
  rewrite (pack_I_fits (sample_rate * n * 4)), bind_lift_Ok, bind_f_write by nia.
  rewrite (pack_H_fits (n * 4)), bind_lift_Ok, bind_f_write by lia.
  rewrite (pack_H_fits 32), bind_lift_Ok, bind_f_write by lia.
  rewrite bind_f_write.
  rewrite (pack_I_fits (ns * n * 4)), bind_lift_Ok, bind_f_write by nia.
  rewrite write_frames_spec.
  - unfold wav_layout, wav_payload. rewrite Hhead. fold n. fold ns.
    repeat rewrite <- app_assoc. reflexivity.
  - apply Forall_forall. intros t Ht.
    apply elem_of_seq in Ht as [_ Ht]. simpl in Ht.
    eapply Forall_impl; [exact Hread|]. intros c Hc. exact (Hc t Ht).
Qed.

Lemma io_bind_Ok {A B} (m : IO A) (k : A -> IO B) w (b : B) :
  ((m ≫= k) w).2 = Ok b ->
  exists a, (m w).2 = Ok a /\ (k a (m w).1).2 = Ok b.
Proof.
  unfold mbind, IO_bind, io_bind.
  destruct (m w) as [w' [a|e]]; simpl; [eauto|discriminate].
Qed.


Lemma pack_I_Ok (n : Z) (b : list byte) : pack_I n = Ok b -> 0 <= n < 2 ^ 32.
Proof.
  unfold pack_I.
  destruct (Z.leb_spec 0 n), (Z.ltb_spec n (2 ^ 32)); simpl; try discriminate.
  lia.
Qed.

Lemma pack_H_Ok (n : Z) (b : list byte) : pack_H n = Ok b -> 0 <= n < 2 ^ 16.
Proof.
  unfold pack_H.
  destruct (Z.leb_spec 0 n), (Z.ltb_spec n (2 ^ 16)); simpl; try discriminate.
  lia.
Qed.



Lemma pack_f_Ok (x : float) (b : list byte) :
  pack_f x = Ok b -> packable x = true.
Proof. rewrite pack_f_spec. destruct (packable x); [reflexivity|discriminate]. Qed.


Lemma py_getitem_nat_Ok {A} (l : list A) (k : nat) (x : A) :
  py_getitem l (Z.of_nat k) = Ok x -> l !! k = Some x.
Proof.
  unfold py_getitem.
  destruct (Nat.lt_ge_cases k (length l)) as [Hk|Hk].
  - rewrite py_index_nonneg by lia. simpl. rewrite Nat2Z.id.
    destruct (l !! k); [congruence|discriminate].
  - rewrite py_index_above by lia. discriminate.
Qed.


(** A frame that is written has found, in every channel, a sample that
    can be packed. *)
Lemma write_frame_Ok f channels t range : forall w,
  (write_frame f channels (Z.of_nat t) range w).2 = Ok () ->
  Forall (fun ch => exists c x, channels !! ch = Some c /\ c !! t = Some x /\
                                packable x = true) range.
Proof.
  induction range as [|ch range IH]; intros w; cbn [write_frame]; [constructor|].
  intros (c & Hc & (x & Hx & (b & Hb & (u & _ & Hrest)%io_bind_Ok
                             )%io_bind_Ok)%io_bind_Ok)%io_bind_Ok.
  cbn [lift snd] in Hc, Hx, Hb.
  apply Forall_cons. split; [|exact (IH _ Hrest)].
  exists c, x. split; [exact (py_getitem_nat_Ok _ _ _ Hc)|].
  split; [exact (py_getitem_nat_Ok _ _ _ Hx)|exact (pack_f_Ok _ _ Hb)].
Qed.

Lemma write_frames_Ok f channels num_channels range : forall w,
  (write_frames f channels num_channels range w).2 = Ok () ->
  Forall (fun t =>
            Forall (fun ch => exists c x, channels !! ch = Some c /\
                                c !! t = Some x /\ packable x = true)
                   (seq 0 num_channels)) range.
Proof.
  induction range as [|t range IH]; intros w; cbn [write_frames]; [constructor|].
  intros ([] & Hframe & Hrest)%io_bind_Ok.
  apply Forall_cons. split; [exact (write_frame_Ok _ _ _ _ _ Hframe)|].
  exact (IH _ Hrest).
Qed.



End EncoderStructure.

Section EncoderOutcome.
Implicit Types (w : World) (path : string) (channels : list (list float)).

(** What the encoder has checked when it returns. *)
Lemma write_wav_Ok path channels sample_rate w :
  (write_wav path channels sample_rate w).2 = Ok () ->
  channels <> [] /\
  header_fits channels sample_rate /\
  Forall (fun c => forall t, (t < length (default [] (head channels)))%nat ->
                     exists x, c !! t = Some x /\ packable x = true) channels.
Proof.
  destruct channels as [|c0 rest] eqn:Hch; [discriminate|].
  rewrite <- Hch.
  assert (Hhead : default [] (head channels) = c0) by (rewrite Hch; reflexivity).
  assert (Hn : 1 <= Z.of_nat (length channels)) by (rewrite Hch; simpl; lia).
  assert (Hget : py_getitem channels 0 = Ok c0)
    by (apply (py_getitem_nat channels 0%nat c0); rewrite Hch; reflexivity).
  unfold write_wav. cbv zeta. rewrite Hget, bind_lift_Ok.
  change (32 `div` 8) with 4.
  set (n := Z.of_nat (length channels)) in *.
  set (ns := Z.of_nat (length c0)) in *.
  intros Hrun.
  repeat match type of Hrun with
         | ((_ ≫= _) _).2 = Ok _ =>
             let a := fresh "a" in
             let Ha := fresh "Ha" in
             apply io_bind_Ok in Hrun as (a & Ha & Hrun);
             cbn [lift snd] in Ha
         end.
  repeat match goal with
         | H : pack_I _ = Ok _ |- _ => apply pack_I_Ok in H
         | H : pack_H _ = Ok _ |- _ => apply pack_H_Ok in H
         end.
  split; [rewrite Hch; discriminate|]. split.
  - unfold header_fits. rewrite Hhead. fold n. fold ns. cbv zeta.
    repeat split; nia.
  - apply write_frames_Ok in Hrun. rewrite Hhead.
    apply Forall_lookup. intros ch c Hc t Ht.
    rewrite Forall_forall in Hrun.
    specialize (Hrun t ltac:(apply elem_of_seq; lia)).
    rewrite Forall_forall in Hrun.
    destruct (Hrun ch) as (c' & x & Hc' & Hx & Hp).
    { apply elem_of_seq. apply lookup_lt_Some in Hc. lia. }
    assert (c' = c) as -> by congruence. eauto.
Qed.


End EncoderOutcome.

Section ReadBack.




Lemma byte_of_Z_value (n : Z) :
  Z.of_N (Byte.to_N (byte_of_Z n)) = n mod 256.
Proof.
  unfold byte_of_Z.
  change 255 with (Z.ones 8). rewrite Z.land_ones by lia.
  change (2 ^ 8) with 256.
  pose proof (Z.mod_pos_bound n 256 ltac:(lia)) as Hb.
  destruct (Byte.of_N (Z.to_N (n mod 256))) as [b|] eqn:Hof.
  - simpl. rewrite (Byte.to_of_N _ Hof). lia.
  - exfalso.
    pose proof (Byte.to_of_N_option_map (Z.to_N (n mod 256))) as Hm.
    rewrite Hof in Hm. simpl in Hm.
    destruct (N.leb_spec (Z.to_N (n mod 256)) 255); [discriminate|lia].
Qed.

(** Unpacking the [k] bytes of a number that fits them gives it back. *)
Lemma le_value_le_bytes (k : nat) : forall n : Z,
  0 <= n < 2 ^ (8 * Z.of_nat k) -> le_value (le_bytes k n) = n.
Proof.
  induction k as [|k IH]; intros n Hn.
  - simpl in *. lia.
  - cbn [le_bytes le_value fold_right]. fold (le_value (le_bytes k (Z.shiftr n 8))).
    rewrite byte_of_Z_value, Z.shiftr_div_pow2 by lia.
    change (2 ^ 8) with 256.
    rewrite IH.
    + pose proof (Z.div_mod n 256 ltac:(lia)). lia.
    + replace (8 * Z.of_nat (S k)) with (8 + 8 * Z.of_nat k) in Hn by lia.
      rewrite Z.pow_add_r in Hn by lia. change (2 ^ 8) with 256 in Hn.
      split; [apply Z.div_pos; lia|].
      apply Z.div_lt_upper_bound; lia.
Qed.

Lemma field_skip (a rest : list byte) (k off len : nat) :
  length a = k -> field (a ++ rest) (k + off) len = field rest off len.
Proof. intros <-. unfold field. rewrite drop_app_add. reflexivity. Qed.

Lemma field_here (x rest : list byte) (len : nat) :
  length x = len -> field (x ++ rest) 0 len = x.
Proof. intros <-. unfold field. rewrite drop_0. apply take_app_length. Qed.

End ReadBack.




(** Stepping over a chunk of [k] bytes, and reading the chunk at hand. *)
Ltac skip_chunk k off :=
  rewrite (field_skip _ _ k off) by first [reflexivity|apply le_bytes_length].
Ltac read_chunk :=
  rewrite field_here by first [reflexivity|apply le_bytes_length].

(** X12: The header of a file the encoder has written reads back: unpacking its
    fields gives the chunk sizes that match the length of the file, the
    format code 3, the channel count, the sample rate, the byte rate, the
    block alignment and the 32 bits per sample. *)
Theorem wav_header_reads_back (path : string) (channels : list (list float))
    (sample_rate : Z) (w w' : World) :
  write_wav path channels sample_rate w = (w', Ok ()) ->
  exists file,
    files w' !! path = Some file /\
    field file 0 4 = bytes_lit "RIFF" /\
    le_value (field file 4 4) = Z.of_nat (length file) - 8 /\
    field file 8 4 = bytes_lit "WAVE" /\
    field file 12 4 = bytes_lit "fmt " /\
    le_value (field file 16 4) = 16 /\
    le_value (field file 20 2) = 3 /\
    le_value (field file 22 2) = Z.of_nat (length channels) /\
    le_value (field file 24 4) = sample_rate /\
    le_value (field file 28 4) = sample_rate * Z.of_nat (length channels) * 4 /\
    le_value (field file 32 2) = Z.of_nat (length channels) * 4 /\
    le_value (field file 34 2) = 32 /\
    field file 36 4 = bytes_lit "data" /\
    le_value (field file 40 4) = Z.of_nat (length file) - 44.
Proof.
  intros Hrun.
  assert (Hok : (write_wav path channels sample_rate w).2 = Ok ())
    by (rewrite Hrun; reflexivity).
  destruct (write_wav_Ok _ _ _ _ Hok) as (Hne & Hfits & Hread).
  rewrite (write_wav_returns path channels sample_rate w Hne Hfits Hread) in Hrun.
  injection Hrun as <-.
  exists (wav_layout channels sample_rate).
  split; [apply lookup_insert_eq|].
  rewrite wav_layout_length.
  destruct Hfits as (Hsr & Hrate & Halign & Hsize).
  assert (Hn : 1 <= Z.of_nat (length channels))
    by (destruct channels; [contradiction|simpl; lia]).
  set (n := Z.of_nat (length channels)) in *.
  set (ns := Z.of_nat (length (default [] (head channels)))) in *.
  assert (Hlen8 : Z.of_nat (44 + length (default [] (head channels))
                                 * (length channels * 4)) = 44 + ns * n * 4)
    by (unfold n, ns; lia).
  rewrite Hlen8. unfold wav_layout. cbv zeta. fold n. fold ns.
  repeat apply conj.
  - read_chunk. reflexivity.
  - skip_chunk 4%nat 0%nat. read_chunk. rewrite le_value_le_bytes; lia.
  - skip_chunk 4%nat 4%nat. skip_chunk 4%nat 0%nat. read_chunk. reflexivity.
  - skip_chunk 4%nat 8%nat. skip_chunk 4%nat 4%nat. skip_chunk 4%nat 0%nat. read_chunk. reflexivity.
  - skip_chunk 4%nat 12%nat. skip_chunk 4%nat 8%nat. skip_chunk 4%nat 4%nat. skip_chunk 4%nat 0%nat.
    read_chunk. reflexivity.
  - skip_chunk 4%nat 16%nat. skip_chunk 4%nat 12%nat. skip_chunk 4%nat 8%nat. skip_chunk 4%nat 4%nat.
    skip_chunk 4%nat 0%nat. read_chunk. reflexivity.
  - skip_chunk 4%nat 18%nat. skip_chunk 4%nat 14%nat. skip_chunk 4%nat 10%nat. skip_chunk 4%nat 6%nat.
    skip_chunk 4%nat 2%nat. skip_chunk 2%nat 0%nat. read_chunk. rewrite le_value_le_bytes; lia.
  - skip_chunk 4%nat 20%nat. skip_chunk 4%nat 16%nat. skip_chunk 4%nat 12%nat. skip_chunk 4%nat 8%nat.
    skip_chunk 4%nat 4%nat. skip_chunk 2%nat 2%nat. skip_chunk 2%nat 0%nat. read_chunk.
    rewrite le_value_le_bytes; nia.
  - skip_chunk 4%nat 24%nat. skip_chunk 4%nat 20%nat. skip_chunk 4%nat 16%nat. skip_chunk 4%nat 12%nat.
    skip_chunk 4%nat 8%nat. skip_chunk 2%nat 6%nat. skip_chunk 2%nat 4%nat. skip_chunk 4%nat 0%nat. read_chunk.
    rewrite le_value_le_bytes; nia.
  - skip_chunk 4%nat 28%nat. skip_chunk 4%nat 24%nat. skip_chunk 4%nat 20%nat. skip_chunk 4%nat 16%nat.
    skip_chunk 4%nat 12%nat. skip_chunk 2%nat 10%nat. skip_chunk 2%nat 8%nat. skip_chunk 4%nat 4%nat.
    skip_chunk 4%nat 0%nat. read_chunk. rewrite le_value_le_bytes; lia.
  - skip_chunk 4%nat 30%nat. skip_chunk 4%nat 26%nat. skip_chunk 4%nat 22%nat. skip_chunk 4%nat 18%nat.
    skip_chunk 4%nat 14%nat. skip_chunk 2%nat 12%nat. skip_chunk 2%nat 10%nat. skip_chunk 4%nat 6%nat.
    skip_chunk 4%nat 2%nat. skip_chunk 2%nat 0%nat. read_chunk. reflexivity.
  - skip_chunk 4%nat 32%nat. skip_chunk 4%nat 28%nat. skip_chunk 4%nat 24%nat. skip_chunk 4%nat 20%nat.
    skip_chunk 4%nat 16%nat. skip_chunk 2%nat 14%nat. skip_chunk 2%nat 12%nat. skip_chunk 4%nat 8%nat.
    skip_chunk 4%nat 4%nat. skip_chunk 2%nat 2%nat. skip_chunk 2%nat 0%nat. read_chunk. reflexivity.
  - skip_chunk 4%nat 36%nat. skip_chunk 4%nat 32%nat. skip_chunk 4%nat 28%nat. skip_chunk 4%nat 24%nat.
    skip_chunk 4%nat 20%nat. skip_chunk 2%nat 18%nat. skip_chunk 2%nat 16%nat. skip_chunk 4%nat 12%nat.
    skip_chunk 4%nat 8%nat. skip_chunk 2%nat 6%nat. skip_chunk 2%nat 4%nat. skip_chunk 4%nat 0%nat. read_chunk.
    rewrite le_value_le_bytes; nia.
Qed.

(** ** The generator and the command line *)

Section GeneratorRuns.
Implicit Types (w : World) (name path : string) (p : Preset).

(** The crossfeed channel, by the recurrence: the unfiltered buffer, then
    one pass of the filter. *)
Lemma cross_channel_by_recurrence (gain : float) (refl : list (float * float))
    (cdm f : float) (buf : list float) (alpha : float) :
  generate_channel gain refl true cdm None = Ok buf ->
  lpf_alpha f SAMPLE_RATE = Ok alpha ->
  truthy f = true ->
  generate_channel gain refl true cdm (Some f)
  = Ok (lpf_recurrence alpha zero buf).
Proof.
  intros Hbuf Halpha Ht.
  rewrite generate_channel_filter, Hbuf.
  unfold mbind, result_bind, rbind. cbn [andb]. rewrite Ht.
  rewrite apply_lpf_to_impulse_eq, Halpha. reflexivity.
Qed.



End GeneratorRuns.




(** X16: The channels of the three presets hold no infinity and no NaN, and no
    sample exceeds 1 in magnitude: both the direct and the crossfeed
    channel of light, medium and heavy are synthesized with every sample a
    finite number in [-1, 1]. *)
Theorem preset_samples_in_range (name : string) :
  name = "light" \/ name = "medium" \/ name = "heavy" ->
  exists p ll lr,
    dict_get PRESETS name = Some p /\
    generate_channel (direct_gain p) (reflections p) false 0%float None = Ok ll /\
    generate_channel (cross_gain p) (cross_reflections p) true
      (cross_delay_ms p) (Some (cross_lpf_freq p)) = Ok lr /\
    Forall (fun x => finite64 x = true /\
                     PrimFloat.leb (PrimFloat.abs x) 1%float = true) (ll ++ lr).
Proof.
  intros Hname.
  assert (Hp : exists p ll buf alpha,
    dict_get PRESETS name = Some p /\
    generate_channel (direct_gain p) (reflections p) false 0%float None = Ok ll /\
    generate_channel (cross_gain p) (cross_reflections p) true
      (cross_delay_ms p) None = Ok buf /\
    lpf_alpha (cross_lpf_freq p) SAMPLE_RATE = Ok alpha /\
    truthy (cross_lpf_freq p) = true /\
    forallb (fun x => finite64 x && PrimFloat.leb (PrimFloat.abs x) 1%float)
            (ll ++ lpf_recurrence alpha zero buf) = true).
  { destruct Hname as [->|[->| ->]].
    all: eexists; eexists; eexists; eexists.
    all: split; [reflexivity|].
    all: split; [vm_compute; reflexivity|].
    all: split; [vm_compute; reflexivity|].
    all: split; [vm_compute; reflexivity|].
    all: split; [reflexivity|].
    all: vm_compute; reflexivity. }
  destruct Hp as (p & ll & buf & alpha & Hp & Hll & Hbuf & Halpha & Ht & Hall).
  exists p, ll, (lpf_recurrence alpha zero buf).
  split; [exact Hp|]. split; [exact Hll|].
  split; [exact (cross_channel_by_recurrence _ _ _ _ _ _ Hbuf Halpha Ht)|].
  apply Forall_forall. intros x Hx.
  rewrite forallb_forall in Hall.
  apply andb_true_iff. apply Hall. apply list_elem_of_In. exact Hx.
Qed.

(** ** The further properties at concrete inputs *)

Lemma apply_lpf_causal_witness :
  exists out,
    apply_lpf_to_impulse [1; 0; 0.5]%float 3000%float 48000 = Ok out /\
    apply_lpf_to_impulse [1; 0]%float 3000%float 48000 = Ok (take 2 out).
Proof.
  assert (Hrun : exists out,
            apply_lpf_to_impulse [1; 0; 0.5]%float 3000%float 48000 = Ok out)
    by (eexists; vm_compute; reflexivity).
  destruct Hrun as [out Hrun]. exists out. split; [exact Hrun|].
  exact (proj1 (apply_lpf_causal [1; 0; 0.5]%float 3000%float 48000 out Hrun)
           2%nat).
Defined.

Lemma apply_lpf_delay_witness :
  PrimFloat.ltb 0%float 2500%float = true /\
  of_int 48000 = Ok 48000%float /\
  exists out,
    apply_lpf_to_impulse [0.25; 0.06]%float 2500%float 48000 = Ok out /\
    apply_lpf_to_impulse [0; 0; 0; 0.25; 0.06]%float 2500%float 48000
    = Ok ([0; 0; 0]%float ++ out).
Proof.
  split; [reflexivity|]. split; [reflexivity|].
  exact (apply_lpf_delay [0.25; 0.06]%float 2500%float 48000 48000%float 3
           eq_refl ltac:(lia) eq_refl).
Defined.

Lemma generate_channel_support_witness :
  exists out,
    generate_channel 1%float [(1.5, 0.12); (3.8, 0.09)]%float false 0%float None
      = Ok out /\
    written_positions false 0%float [(1.5, 0.12); (3.8, 0.09)]%float
      = [0; 72; 182]%nat /\
    out !! 100%nat = Some 0%float.
Proof.
  assert (Hrun : exists out,
            generate_channel 1%float [(1.5, 0.12); (3.8, 0.09)]%float false
              0%float None = Ok out)
    by (eexists; vm_compute; reflexivity).
  destruct Hrun as [out Hrun]. exists out. split; [exact Hrun|].
  split; [reflexivity|].
  apply (proj2 (generate_channel_support 1%float [(1.5, 0.12); (3.8, 0.09)]%float
                  false 0%float out Hrun)).
  - unfold IR_SAMPLES. lia.
  - change (100%nat ∉ [0; 72; 182]%nat).
    intros Hin. repeat (apply elem_of_cons in Hin as [Hin|Hin]; [discriminate|]).
    apply elem_of_nil in Hin. exact Hin.
Defined.

Lemma cross_channel_silent_before_delay_witness :
  ms_to_samples 0.3%float = Ok 14 /\
  tap_index true 0.3%float 2.8%float = Ok 148 /\
  PrimFloat.ltb 0%float 2500%float = true /\
  exists out,
    generate_channel 0.25%float [(2.8, 0.06)]%float true 0.3%float
      (Some 2500%float) = Ok out /\
    out !! 13%nat = Some 0%float.
Proof.
  split; [reflexivity|]. split; [reflexivity|]. split; [reflexivity|].
  destruct (cross_channel_silent_before_delay 0.25%float [(2.8, 0.06)]%float
              0.3%float 2500%float 14) as (out & Hout & _ & Hzero).
  - reflexivity.
  - lia.
  - apply Forall_cons. split; [|constructor].
    exists 148. split; [reflexivity|lia].
  - reflexivity.
  - exists out. split; [exact Hout|].
    apply Hzero; [unfold IR_SAMPLES|]; lia.
Defined.

Lemma lone_impulses_stand_alone_witness :
  exists out,
    generate_channel 1%float [(1.5, 0.12); (3.8, 0.09)]%float false 0%float None
      = Ok out /\
    out !! 0%nat = Some 1%float /\
    out !! 182%nat = Some (0 + 0.09 * -1)%float.
Proof.
  assert (Hrun : exists out,
            generate_channel 1%float [(1.5, 0.12); (3.8, 0.09)]%float false
              0%float None = Ok out)
    by (eexists; vm_compute; reflexivity).
  destruct Hrun as [out Hrun]. exists out. split; [exact Hrun|].
  destruct (lone_impulses_stand_alone 1%float [(1.5, 0.12); (3.8, 0.09)]%float
              false 0%float out 0 Hrun eq_refl) as [Hmain Htap].
  split.
  - apply Hmain; [reflexivity|].
    intros [|[|j]] tap d Hj Hd; try discriminate Hj.
    all: injection Hj as <-; injection Hd as <-; discriminate.
  - apply (Htap 1%nat 3.8%float 0.09%float 182 182%nat);
      try reflexivity; try discriminate.
    intros [|[|j]] tap d Hne Hj Hd; try discriminate Hj; [|contradiction].
    injection Hj as <-. injection Hd as <-. discriminate.
Defined.


Lemma wav_header_reads_back_witness :
  let channels := [[1; 2]; [0.5; -1]]%float in
  let w := mkWorld ∅ [] [] in
  exists file,
    write_wav "a.wav" channels 48000 w = (set_file "a.wav" file w, Ok ()) /\
    le_value (field file 4 4) = 52 /\
    le_value (field file 22 2) = 2 /\
    le_value (field file 24 4) = 48000 /\
    le_value (field file 40 4) = 16.
Proof.
  cbv zeta.
  assert (Hrun : write_wav "a.wav" [[1; 2]; [0.5; -1]]%float 48000 (mkWorld ∅ [] [])
                 = (set_file "a.wav" (wav_layout [[1; 2]; [0.5; -1]]%float 48000)
                      (mkWorld ∅ [] []), Ok ()))
    by (vm_compute; reflexivity).
  destruct (wav_header_reads_back "a.wav" [[1; 2]; [0.5; -1]]%float 48000
              (mkWorld ∅ [] []) _ Hrun)
    as (file & Hfile & _ & Hriff & _ & _ & _ & _ & Hn & Hsr & _ & _ & _ & _ & Hdata).
  cbn [set_file files] in Hfile. rewrite lookup_insert_eq in Hfile.
  injection Hfile as <-.
  exists (wav_layout [[1; 2]; [0.5; -1]]%float 48000).
  split; [exact Hrun|].
  split; [rewrite Hriff; reflexivity|]. split; [exact Hn|].
  split; [exact Hsr|]. rewrite Hdata. reflexivity.
Defined.




Lemma whole_ms_to_samples_witness :
  of_int 25 = Ok 25%float /\ ms_to_samples 25%float = Ok 1200 /\
  of_int 80 = Ok 80%float /\ position (48 * 80) = None.
Proof.
  split; [reflexivity|].
  split; [exact (proj1 (whole_ms_to_samples 25 25%float ltac:(lia) eq_refl))|].
  split; [reflexivity|].
  exact (proj2 (proj2 (whole_ms_to_samples 80 80%float ltac:(lia) eq_refl))
           eq_refl).
Defined.

Lemma preset_samples_in_range_witness :
  exists ll lr,
    generate_channel 1.0%float
      [(1.8, 0.08); (5.2, 0.05); (11.0, 0.03)]%float false 0%float None = Ok ll /\
    generate_channel 0.15%float [(3.5, 0.04); (8.0, 0.02)]%float true 0.25%float
      (Some 3000%float) = Ok lr /\
    Forall (fun x => finite64 x = true /\
                     PrimFloat.leb (PrimFloat.abs x) 1%float = true) (ll ++ lr).
Proof.
  destruct (preset_samples_in_range "light" (or_introl eq_refl))
    as (p & ll & lr & Hp & Hll & Hlr & Hall).
  injection Hp as <-. exists ll, lr. split; [exact Hll|]. split; [exact Hlr|].
  exact Hall.
Defined.
